(** * Log commands, log messages and the chain of log handlers (03.cpp)

    A shallow embedding of the program in [03.cpp]: the two [LogCommand]
    sinks, the four [LogMessage] variants, the chain of [LogHandler] links
    with [receiveLog], and [main].

    Conventions.
    - A C++ function that writes to a stream or may throw is a function
      [World -> Outcome A * World]: the result is either a normal return or
      a raised [std::runtime_error], together with the world it leaves.
    - [std::unique_ptr<LogHandler>] is exclusive ownership, so a chain is a
      value: a link and, when [next] is not null, the link it owns.
      [receiveLog] is a non-const member function, hence it also returns the
      receiver as it is after the call.
    - Streams are referred to by address ([nat]); the sinks only hold such
      addresses, as [FileLog] and [ConsoleLog] hold pointers. *)

From Stdlib Require Import Ascii String.
From stdpp Require Import base strings gmap list.

Open Scope string_scope.

(** ** Exceptions and outcomes *)

(** The only exception class thrown in the program. *)
Inductive exception : Type :=
| runtime_error (what_arg : string).

(** [e.what()] *)
Definition what (e : exception) : string :=
  match e with runtime_error s => s end.

Inductive Outcome (A : Type) : Type :=
| Normal (a : A)
| Raise (e : exception).
Arguments Normal {A} a.
Arguments Raise {A} e.

(** ** Sinks: [LogCommand], [FileLog], [ConsoleLog] *)

(** The dynamic class of a [LogCommand] object with its data members.
    [FileLog] has [file_path] and the pointer [f_ostream]; [ConsoleLog] has
    the pointer [p_ostream]. No member is assigned after construction. *)
Inductive LogCommand : Type :=
| FileLog (file_path : string) (f_ostream : nat)
| ConsoleLog (p_ostream : nat).

(** State of a [std::ofstream]: the file its buffer is associated with
    ([None] when [is_open()] is false) and whether the stream is in a
    failed state ([!good()]). *)
Record ofstream : Type := mk_ofstream {
  filebuf : option string;
  fail : bool
}.

(** [std::ofstream ofs;] a default-constructed stream. *)
Definition ofstream_init : ofstream := mk_ofstream None false.

(** Everything the program can observe or change outside its own objects.
    - [ostreams]: the characters written so far to each [std::ostream]
      (an insertion into such a stream always succeeds);
    - [ofstreams]: the state of each [std::ofstream];
    - [files]: the file system, path to contents;
    - [unwritable]: the paths that cannot be opened for appending;
    - [print_calls]: the calls of [LogCommand::print] made so far, in order.
      It is an observation only: no code reads it. *)
Record World : Type := mkWorld {
  ostreams : gmap nat string;
  ofstreams : gmap nat ofstream;
  files : gmap string string;
  unwritable : gset string;
  print_calls : list (LogCommand * string)
}.

Definition set_ostreams (f : gmap nat string -> gmap nat string) (w : World) : World :=
  mkWorld (f (ostreams w)) (ofstreams w) (files w) (unwritable w) (print_calls w).

Definition set_ofstreams (f : gmap nat ofstream -> gmap nat ofstream) (w : World) : World :=
  mkWorld (ostreams w) (f (ofstreams w)) (files w) (unwritable w) (print_calls w).

Definition set_files (f : gmap string string -> gmap string string) (w : World) : World :=
  mkWorld (ostreams w) (ofstreams w) (f (files w)) (unwritable w) (print_calls w).

Definition set_print_calls
    (f : list (LogCommand * string) -> list (LogCommand * string)) (w : World) : World :=
  mkWorld (ostreams w) (ofstreams w) (files w) (unwritable w) (f (print_calls w)).

(** What has been written to the [std::ostream] at address [p]. *)
Definition ostream_content (w : World) (p : nat) : string :=
  default "" (ostreams w !! p).

(** The state of the [std::ofstream] at address [p]; a pointer always
    refers to a live stream (the sink's invariant), default-constructed if
    nothing happened to it yet. *)
Definition ofstream_at (w : World) (p : nat) : ofstream :=
  default ofstream_init (ofstreams w !! p).

(** The contents of the file at [path], empty when it does not exist. *)
Definition file_content (w : World) (path : string) : string :=
  default "" (files w !! path).

(** The address of [std::cout]. *)
Definition cout : nat := 0%nat.

(** The character written by [std::endl]. *)
Definition endl : string := String "010"%char EmptyString.

(** [*p << message << std::endl] on a [std::ostream]. *)
Definition ostream_put (p : nat) (message : string) (w : World) : World :=
  set_ostreams (<[p := ostream_content w p +:+ message +:+ endl]>) w.

(** [std::basic_filebuf::open(path, ios::app | ios::out)]: a null pointer
    ([None]) when the buffer is already associated with a file or the file
    cannot be opened; otherwise the buffer is associated with [path], and
    the file is created when it does not exist. *)
Definition filebuf_open (path : string) (s : ofstream) (w : World)
    : option (ofstream * World) :=
  match filebuf s with
  | Some _ => None
  | None =>
      if decide (path ∈ unwritable w) then None
      else Some (mk_ofstream (Some path) (fail s),
                 set_files (<[path := file_content w path]>) w)
  end.

(** [f->open(path, std::ios::app)]: [setstate(failbit)] when the buffer's
    [open] returns a null pointer, [clear()] otherwise. *)
Definition ofstream_open (f : nat) (path : string) (w : World) : World :=
  let s := ofstream_at w f in
  match filebuf_open path s w with
  | None => set_ofstreams (<[f := mk_ofstream (filebuf s) true]>) w
  | Some (s', w') => set_ofstreams (<[f := mk_ofstream (filebuf s') false]>) w'
  end.

(** [f->is_open()] *)
Definition is_open (w : World) (f : nat) : bool :=
  match filebuf (ofstream_at w f) with Some _ => true | None => false end.

(** [*f << message << std::endl] on a [std::ofstream]: nothing is inserted
    when the stream is in a failed state; otherwise the characters go to
    the end of the associated file, and with no associated file the
    insertion fails. *)
Definition ofstream_put (f : nat) (message : string) (w : World) : World :=
  let s := ofstream_at w f in
  if fail s then w
  else match filebuf s with
       | Some path =>
           set_files (<[path := file_content w path +:+ message +:+ endl]>) w
       | None => set_ofstreams (<[f := mk_ofstream None true]>) w
       end.

(** [f->close()]: closes the associated file; [setstate(failbit)] when
    there is none. *)
Definition ofstream_close (f : nat) (w : World) : World :=
  let s := ofstream_at w f in
  match filebuf s with
  | Some _ => set_ofstreams (<[f := mk_ofstream None (fail s)]>) w
  | None => set_ofstreams (<[f := mk_ofstream None true]>) w
  end.

(** ** The computations of the program *)

Definition M (A : Type) : Type := World -> Outcome A * World.

Definition ret {A} (a : A) : M A := fun w => (Normal a, w).

Definition throw {A} (e : exception) : M A := fun w => (Raise e, w).

Definition bind {A B} (c : M A) (k : A -> M B) : M B :=
  fun w =>
    match c w with
    | (Normal a, w') => k a w'
    | (Raise e, w') => (Raise e, w')
    end.

(** [try { c } catch (const std::exception& e) { h e }] *)
Definition try_catch {A} (c : M A) (h : exception -> M A) : M A :=
  fun w =>
    match c w with
    | (Normal a, w') => (Normal a, w')
    | (Raise e, w') => h e w'
    end.

(** A statement that changes the world and neither returns a value nor
    throws. *)
Definition exec (f : World -> World) : M unit := fun w => (Normal tt, f w).

Notation "x <- c ;; k" := (bind c (fun x => k))
  (at level 100, c at next level, right associativity).
Notation "c ;;; k" := (bind c (fun _ => k))
  (at level 100, right associativity).

(** The call of [print] on [this] with [message] is recorded. *)
Definition called (this : LogCommand) (message : string) (w : World) : World :=
  set_print_calls (fun l => (l ++ [(this, message)])%list) w.

(** [LogCommand::print], by the dynamic class of the sink. *)
Definition print (this : LogCommand) (message : string) : M unit :=
  exec (called this message) ;;;
  match this with
  | FileLog file_path f_ostream =>
      exec (ofstream_open f_ostream file_path) ;;;
      fun w =>
        if is_open w f_ostream
        then exec (ofstream_put f_ostream message) w
        else ret tt w
  | ConsoleLog p_ostream =>
      exec (ostream_put p_ostream message)
  end.

(** [FileLog::~FileLog]; the destructor of [ConsoleLog] is empty. *)
Definition destroy (this : LogCommand) : M unit :=
  match this with
  | FileLog _ f_ostream => exec (ofstream_close f_ostream)
  | ConsoleLog _ => ret tt
  end.

(** ** Messages: [LogMessage] and its four subclasses *)

(** [LogMessage::Type] *)
Inductive LogMessage_Type : Type :=
| tWarning
| tError
| tFatalError
| tUnknownMessage.

#[global] Instance LogMessage_Type_eq_dec : EqDecision LogMessage_Type.
Proof. solve_decision. Defined.

(** The dynamic class of a [LogMessage] object with its data member: the
    pointer to the sink ([file] in [WarningLogMessage], [cons] in
    [ErrorLogMessage], written [cons_] here). *)
Inductive LogMessage : Type :=
| WarningLogMessage (file : LogCommand)
| ErrorLogMessage (cons_ : LogCommand)
| FatalErrorLogMessage
| UnknownMessageLogMessage.

(** [LogMessage::type] *)
Definition type (this : LogMessage) : LogMessage_Type :=
  match this with
  | WarningLogMessage _ => tWarning
  | ErrorLogMessage _ => tError
  | FatalErrorLogMessage => tFatalError
  | UnknownMessageLogMessage => tUnknownMessage
  end.

(** [LogMessage::message] *)
Definition message (this : LogMessage) : M string :=
  match this with
  | WarningLogMessage file =>
      print file "warning" ;;;
      ret "warning"
  | ErrorLogMessage cons_ =>
      print cons_ "Error" ;;;
      ret "Error"
  | FatalErrorLogMessage => throw (runtime_error "FatalError!")
  | UnknownMessageLogMessage => throw (runtime_error "UnknownMessage!")
  end.

(** ** Handlers: [LogHandler] and its four subclasses *)

(** The dynamic class of a handler; the subclasses add no data member. *)
Inductive HandlerClass : Type :=
| WarningLogHandler
| ErrorLogHandler
| FatalErrorLogHandler
| UnknownMessageLogHandler.

#[global] Instance HandlerClass_eq_dec : EqDecision HandlerClass.
Proof. solve_decision. Defined.

(** A [LogHandler] object: its dynamic class and the member [next], which
    owns the rest of the chain or is null. *)
Unset Elimination Schemes.
Inductive LogHandler : Type :=
| make_handler (cls : HandlerClass) (next : option LogHandler).
Set Elimination Schemes.

(** Induction along the chain, from its last link (whose [next] is null)
    towards its first. *)
Fixpoint chain_ind (P : LogHandler -> Prop)
    (Hlast : forall cls, P (make_handler cls None))
    (Hlink : forall cls n, P n -> P (make_handler cls (Some n)))
    (h : LogHandler) : P h :=
  match h with
  | make_handler cls None => Hlast cls
  | make_handler cls (Some n) => Hlink cls n (chain_ind P Hlast Hlink n)
  end.

Definition handler_class (h : LogHandler) : HandlerClass :=
  match h with make_handler cls _ => cls end.

Definition next (h : LogHandler) : option LogHandler :=
  match h with make_handler _ nxt => nxt end.

(** The four overrides of [handleLog]. None of them reads or writes a
    member of its object. *)
Definition WarningLogHandler_handleLog (logmsg : LogMessage) : M bool :=
  if decide (type logmsg ≠ tWarning) then ret false
  else message logmsg ;;; ret true.

Definition ErrorLogHandler_handleLog (logmsg : LogMessage) : M bool :=
  if decide (type logmsg ≠ tError) then ret false
  else message logmsg ;;; ret true.

Definition FatalErrorLogHandler_handleLog (logmsg : LogMessage) : M bool :=
  if decide (type logmsg ≠ tFatalError) then ret false
  else message logmsg ;;; ret true.

Definition UnknownMessageLogHandler_handleLog (logmsg : LogMessage) : M bool :=
  if decide (type logmsg ≠ tUnknownMessage) then ret false
  else message logmsg ;;; ret true.

(** The virtual call [handleLog(logmsg)]. *)
Definition handleLog (cls : HandlerClass) (logmsg : LogMessage) : M bool :=
  match cls with
  | WarningLogHandler => WarningLogHandler_handleLog logmsg
  | ErrorLogHandler => ErrorLogHandler_handleLog logmsg
  | FatalErrorLogHandler => FatalErrorLogHandler_handleLog logmsg
  | UnknownMessageLogHandler => UnknownMessageLogHandler_handleLog logmsg
  end.

(** The text of the exception thrown at the end of the chain. *)
Definition unhandled : exception :=
  runtime_error "Error: Log message should be handled!".

(** [LogHandler::receiveLog]. The first component of the result is the
    receiver after the call: the link itself, owning what its [next] is
    after the delegated call. *)
Fixpoint receiveLog (this : LogHandler) (logmsg : LogMessage) (w : World)
    : LogHandler * (Outcome unit * World) :=
  match this with
  | make_handler cls nxt =>
      match handleLog cls logmsg w with
      | (Raise e, w1) => (this, (Raise e, w1))
      | (Normal true, w1) => (this, (Normal tt, w1))
      | (Normal false, w1) =>
          match nxt with
          | None => (this, (Raise unhandled, w1))
          | Some n =>
              let '(n', r) := receiveLog n logmsg w1 in
              (make_handler cls (Some n'), r)
          end
      end
  end.

(** ** The driver *)

(** The statements of a [try] block that route [msgs] one after the other
    through the link [h]: the first call that throws ends the block. *)
Fixpoint route_all (h : LogHandler) (msgs : list LogMessage) (w : World)
    : LogHandler * (Outcome unit * World) :=
  match msgs with
  | [] => (h, (Normal tt, w))
  | m :: rest =>
      match receiveLog h m w with
      | (h', (Normal _, w')) => route_all h' rest w'
      | (h', (Raise e, w')) => (h', (Raise e, w'))
      end
  end.

(** [try { ... } catch (const std::exception& e) { std::cout << e.what()
    << std::endl; } return 0;] around the routing calls. The result is the
    chain, the value returned and the world. *)
Definition driver (h : LogHandler) (msgs : list LogMessage) (w : World)
    : LogHandler * (Z * World) :=
  match route_all h msgs w with
  | (h', (Normal _, w')) => (h', (0%Z, w'))
  | (h', (Raise e, w')) => (h', (0%Z, ostream_put cout (what e) w'))
  end.

(** The driver in the words of the specification, to compare with
    [driver]: the failure of a routing call is caught and its text printed
    to the standard output, and the driver proceeds to the next message. *)
Fixpoint driver_per_message (h : LogHandler) (msgs : list LogMessage) (w : World)
    : LogHandler * (Z * World) :=
  match msgs with
  | [] => (h, (0%Z, w))
  | m :: rest =>
      match receiveLog h m w with
      | (h', (Normal _, w')) => driver_per_message h' rest w'
      | (h', (Raise e, w')) =>
          driver_per_message h' rest (ostream_put cout (what e) w')
      end
  end.

(** The address of the local [ofs] of [main]. *)
Definition ofs : nat := 0%nat.

Definition cl : LogCommand := ConsoleLog cout.
Definition fl : LogCommand := FileLog "file_path" ofs.

Definition warn_handler : LogHandler :=
  make_handler WarningLogHandler None.
Definition err_handler : LogHandler :=
  make_handler ErrorLogHandler (Some warn_handler).
Definition fatalerr_handler : LogHandler :=
  make_handler FatalErrorLogHandler (Some err_handler).
Definition unknowmes_handler : LogHandler :=
  make_handler UnknownMessageLogHandler (Some fatalerr_handler).

(** The three messages of [main], in the order they are routed. *)
Definition main_messages : list LogMessage :=
  [WarningLogMessage cl; ErrorLogMessage fl; UnknownMessageLogMessage].

(** The world once the locals of [main] are constructed: [ofs] is a
    default-constructed stream. *)
Definition main_start (w : World) : World :=
  set_ofstreams (<[ofs := ofstream_init]>) w.

(** [main]: the exit code and the world at exit. After [return 0] the
    locals are destroyed; only the destructor of [fl] has an effect. *)
Definition main (w : World) : Z * World :=
  let '(_, (code, w1)) := driver unknowmes_handler main_messages (main_start w) in
  (code, snd (destroy fl w1)).

(** ** The chain as a sequence of links *)

(** The severity a handler class is bound to: the constant its override of
    [handleLog] compares [logmsg.type()] with. *)
Definition accepts (cls : HandlerClass) : LogMessage_Type :=
  match cls with
  | WarningLogHandler => tWarning
  | ErrorLogHandler => tError
  | FatalErrorLogHandler => tFatalError
  | UnknownMessageLogHandler => tUnknownMessage
  end.

(** The classes of the links of a chain, first link first. *)
Fixpoint links (h : LogHandler) : list HandlerClass :=
  match h with
  | make_handler cls None => [cls]
  | make_handler cls (Some n) => cls :: links n
  end.

(** The severities the links of a chain are bound to. *)
Definition severities (h : LogHandler) : list LogMessage_Type :=
  accepts <$> links h.

(** The link reached from [h] by following [next] [k] times. *)
Fixpoint nth_link (k : nat) (h : LogHandler) : option LogHandler :=
  match k with
  | O => Some h
  | S k' => match next h with
            | None => None
            | Some n => nth_link k' n
            end
  end.

(** How many times [receiveLog] executes its delegation
    [next->receiveLog(logmsg)] when called on [this]. *)
Fixpoint delegations (this : LogHandler) (logmsg : LogMessage) (w : World) : nat :=
  match this with
  | make_handler cls nxt =>
      match handleLog cls logmsg w with
      | (Normal false, w1) =>
          match nxt with
          | None => O
          | Some n => S (delegations n logmsg w1)
          end
      | _ => O
      end
  end.

(** What a matching link does with the message: [logmsg.message()] is
    called, its text is dropped, its exception is passed on. *)
Definition consume (logmsg : LogMessage) (w : World) : Outcome unit * World :=
  match message logmsg w with
  | (Normal _, w') => (Normal tt, w')
  | (Raise e, w') => (Raise e, w')
  end.

(** ** Notions used to state properties of the output *)

(** [b] is [a] with more characters after it. *)
Definition extends (a b : string) : Prop := exists s, b = a +:+ s.

(** From [w] to [w'] output was only added: every stream and every file
    has its earlier contents followed by what was written since, the calls
    of [print] made before are still the first ones recorded, and the set
    of paths that cannot be opened is the same. *)
Definition grows (w w' : World) : Prop :=
  (forall p, extends (ostream_content w p) (ostream_content w' p))
  /\ (forall path, extends (file_content w path) (file_content w' path))
  /\ (exists l, print_calls w' = (print_calls w ++ l)%list)
  /\ unwritable w' = unwritable w.

(** The call of [print] that [message()] makes on a message: none for the
    two classes whose [message()] only throws. *)
Definition written (logmsg : LogMessage) : list (LogCommand * string) :=
  match logmsg with
  | WarningLogMessage file => [(file, "warning")]
  | ErrorLogMessage cons_ => [(cons_, "Error")]
  | FatalErrorLogMessage => []
  | UnknownMessageLogMessage => []
  end.

(** The chain made of the first [S k] links of [h], the last of them with
    a null [next]; all of [h] when it has no more links than that. *)
Fixpoint cut (k : nat) (h : LogHandler) : LogHandler :=
  match h with
  | make_handler cls None => make_handler cls None
  | make_handler cls (Some n) =>
      match k with
      | O => make_handler cls None
      | S k' => make_handler cls (Some (cut k' n))
      end
  end.

(** * Properties *)

(** ** The overrides of [handleLog] *)

Section HandleLog.
Variables (cls : HandlerClass) (logmsg : LogMessage) (w : World).

Lemma handleLog_match :
  type logmsg = accepts cls ->
  handleLog cls logmsg w =
    match message logmsg w with
    | (Normal _, w') => (Normal true, w')
    | (Raise e, w') => (Raise e, w')
    end.
Proof.
  intros Hty.
  destruct cls; simpl in Hty; simpl;
    unfold WarningLogHandler_handleLog, ErrorLogHandler_handleLog,
      FatalErrorLogHandler_handleLog, UnknownMessageLogHandler_handleLog;
    (destruct (decide _) as [Hne|_]; [congruence|]);
    unfold bind, ret; destruct (message logmsg w) as [[t|e] w']; reflexivity.
Qed.

Lemma handleLog_decline :
  type logmsg <> accepts cls ->
  handleLog cls logmsg w = (Normal false, w).
Proof.
  intros Hty.
  destruct cls; simpl in Hty; simpl;
    unfold WarningLogHandler_handleLog, ErrorLogHandler_handleLog,
      FatalErrorLogHandler_handleLog, UnknownMessageLogHandler_handleLog;
    (destruct (decide _) as [_|Heq]; [reflexivity|]);
    exfalso; apply Heq; exact Hty.
Qed.
End HandleLog.

(** ** One step of [receiveLog] *)

Lemma receiveLog_match cls nxt logmsg w :
  type logmsg = accepts cls ->
  receiveLog (make_handler cls nxt) logmsg w
  = (make_handler cls nxt, consume logmsg w).
Proof.
  intros Hty. unfold consume. simpl.
  rewrite (handleLog_match _ _ _ Hty).
  destruct (message logmsg w) as [[t|e] w']; reflexivity.
Qed.

Lemma receiveLog_delegate cls n logmsg w :
  type logmsg <> accepts cls ->
  receiveLog (make_handler cls (Some n)) logmsg w
  = (make_handler cls (Some (fst (receiveLog n logmsg w))),
     snd (receiveLog n logmsg w)).
Proof.
  intros Hty. simpl. rewrite (handleLog_decline _ _ _ Hty).
  destruct (receiveLog n logmsg w); reflexivity.
Qed.

Lemma receiveLog_end cls logmsg w :
  type logmsg <> accepts cls ->
  receiveLog (make_handler cls None) logmsg w
  = (make_handler cls None, (Raise unhandled, w)).
Proof.
  intros Hty. simpl. rewrite (handleLog_decline _ _ _ Hty). reflexivity.
Qed.

Lemma delegations_match cls nxt logmsg w :
  type logmsg = accepts cls ->
  delegations (make_handler cls nxt) logmsg w = 0%nat.
Proof.
  intros Hty. simpl. rewrite (handleLog_match _ _ _ Hty).
  destruct (message logmsg w) as [[t|e] w']; reflexivity.
Qed.

Lemma delegations_delegate cls n logmsg w :
  type logmsg <> accepts cls ->
  delegations (make_handler cls (Some n)) logmsg w = S (delegations n logmsg w).
Proof.
  intros Hty. simpl. rewrite (handleLog_decline _ _ _ Hty). reflexivity.
Qed.

Lemma delegations_end cls logmsg w :
  delegations (make_handler cls None) logmsg w = 0%nat.
Proof.
  simpl. destruct (handleLog cls logmsg w) as [[[|]|e] w']; reflexivity.
Qed.

(** C1, amended: [receiveLog] is a three-way dispatch on whether the type
    of the message is the severity the link is bound to. On a match the
    link calls [message()] on the message, drops the text it returns,
    passes on its writes and its exception, and returns without any
    delegation, whatever its [next] is.
    Otherwise a link with a successor gives the result of [receiveLog] on
    the successor, and a link without one throws the "should be handled"
    error, leaving the world as it was. *)
Theorem receiveLog_dispatch (cls : HandlerClass) (logmsg : LogMessage) (w : World) :
  (type logmsg = accepts cls ->
     forall nxt,
       receiveLog (make_handler cls nxt) logmsg w
       = (make_handler cls nxt, consume logmsg w)
       /\ delegations (make_handler cls nxt) logmsg w = 0%nat)
  /\ (type logmsg <> accepts cls ->
        forall n,
          snd (receiveLog (make_handler cls (Some n)) logmsg w)
          = snd (receiveLog n logmsg w)
          /\ delegations (make_handler cls (Some n)) logmsg w
             = S (delegations n logmsg w))
  /\ (type logmsg <> accepts cls ->
        snd (receiveLog (make_handler cls None) logmsg w)
        = (Raise unhandled, w)
        /\ what unhandled = "Error: Log message should be handled!").
Proof.
  split; [|split].
  - intros Hty nxt. split.
    + apply receiveLog_match, Hty.
    + apply delegations_match, Hty.
  - intros Hty n. split.
    + rewrite (receiveLog_delegate _ _ _ _ Hty). reflexivity.
    + apply delegations_delegate, Hty.
  - intros Hty. split.
    + rewrite (receiveLog_end _ _ _ Hty). reflexivity.
    + reflexivity.
Qed.

(** The three cases of C1 at the links of the chain of [main]: an unknown
    message at the first link, a warning at the first link, and a fatal
    error at the last link. *)
Lemma receiveLog_dispatch_witness :
  (receiveLog unknowmes_handler UnknownMessageLogMessage (mkWorld ∅ ∅ ∅ ∅ [])
   = (unknowmes_handler, (Raise (runtime_error "UnknownMessage!"), mkWorld ∅ ∅ ∅ ∅ [])))
  /\ (snd (receiveLog unknowmes_handler (WarningLogMessage cl) (mkWorld ∅ ∅ ∅ ∅ []))
      = snd (receiveLog fatalerr_handler (WarningLogMessage cl) (mkWorld ∅ ∅ ∅ ∅ [])))
  /\ (snd (receiveLog warn_handler FatalErrorLogMessage (mkWorld ∅ ∅ ∅ ∅ []))
      = (Raise unhandled, mkWorld ∅ ∅ ∅ ∅ [])).
Proof.
  split; [|split].
  - apply (proj1 (receiveLog_dispatch UnknownMessageLogHandler
                    UnknownMessageLogMessage (mkWorld ∅ ∅ ∅ ∅ []))).
    reflexivity.
  - apply (proj1 (proj2 (receiveLog_dispatch UnknownMessageLogHandler
                    (WarningLogMessage cl) (mkWorld ∅ ∅ ∅ ∅ [])))).
    discriminate.
  - apply (proj2 (proj2 (receiveLog_dispatch WarningLogHandler
                    FatalErrorLogMessage (mkWorld ∅ ∅ ∅ ∅ [])))).
    discriminate.
Defined.

(** C1 as stated fails where it has the matching link pass on the text:
    [message()] of a warning returns "warning" and that of an error
    "Error", [handleLog] of the matching link answers [true] in place of
    the text, and the two calls of [receiveLog] return the same value,
    which carries no text. *)
Lemma receiveLog_dispatch_counterexample :
  fst (message (WarningLogMessage cl) (mkWorld ∅ ∅ ∅ ∅ [])) = Normal "warning"
  /\ fst (message (ErrorLogMessage cl) (mkWorld ∅ ∅ ∅ ∅ [])) = Normal "Error"
  /\ fst (handleLog WarningLogHandler (WarningLogMessage cl) (mkWorld ∅ ∅ ∅ ∅ []))
     = Normal true
  /\ fst (handleLog ErrorLogHandler (ErrorLogMessage cl) (mkWorld ∅ ∅ ∅ ∅ []))
     = Normal true
  /\ fst (snd (receiveLog warn_handler (WarningLogMessage cl) (mkWorld ∅ ∅ ∅ ∅ [])))
     = Normal tt
  /\ fst (snd (receiveLog err_handler (ErrorLogMessage cl) (mkWorld ∅ ∅ ∅ ∅ [])))
     = Normal tt.
Proof. repeat split; vm_compute; reflexivity. Qed.

(** ** Routing through a whole chain *)

Lemma severities_last cls : severities (make_handler cls None) = [accepts cls].
Proof. reflexivity. Qed.

Lemma severities_link cls n :
  severities (make_handler cls (Some n)) = accepts cls :: severities n.
Proof. reflexivity. Qed.

Lemma links_nonempty h : (0 < length (links h))%nat.
Proof. destruct h as [cls [n|]]; simpl; lia. Qed.

(** [receiveLog] in closed form: the chain is returned as it was, and the
    message is consumed exactly when some link is bound to its type. *)
Lemma receiveLog_closed h logmsg w :
  receiveLog h logmsg w
  = (h, if decide (type logmsg ∈ severities h)
        then consume logmsg w
        else (Raise unhandled, w)).
Proof.
  induction h as [cls|cls n IH] using chain_ind.
  - rewrite severities_last.
    destruct (decide (type logmsg = accepts cls)) as [Heq|Hne].
    + rewrite (receiveLog_match _ _ _ _ Heq).
      rewrite decide_True by (rewrite Heq; apply list_elem_of_singleton; reflexivity).
      reflexivity.
    + rewrite (receiveLog_end _ _ _ Hne).
      rewrite decide_False by (rewrite list_elem_of_singleton; exact Hne).
      reflexivity.
  - rewrite severities_link.
    destruct (decide (type logmsg = accepts cls)) as [Heq|Hne].
    + rewrite (receiveLog_match _ _ _ _ Heq).
      rewrite decide_True by (rewrite Heq; apply list_elem_of_here).
      reflexivity.
    + rewrite (receiveLog_delegate _ _ _ _ Hne), IH. simpl.
      destruct (decide (type logmsg ∈ severities n)) as [Hin|Hnin].
      * rewrite decide_True by (apply list_elem_of_further; exact Hin).
        reflexivity.
      * rewrite decide_False; [reflexivity|].
        rewrite elem_of_cons. intros [Heq|Hin]; [exact (Hne Heq)|exact (Hnin Hin)].
Qed.

Lemma receiveLog_this h logmsg w : fst (receiveLog h logmsg w) = h.
Proof. rewrite receiveLog_closed. reflexivity. Qed.

Lemma consume_cases logmsg w :
  (exists t w', message logmsg w = (Normal t, w') /\ consume logmsg w = (Normal tt, w'))
  \/ (exists e w', message logmsg w = (Raise e, w') /\ consume logmsg w = (Raise e, w')).
Proof.
  unfold consume. destruct (message logmsg w) as [[t|e] w'].
  - left. exists t, w'. split; reflexivity.
  - right. exists e, w'. split; reflexivity.
Qed.

Lemma route_all_this h msgs w : fst (route_all h msgs w) = h.
Proof.
  revert w. induction msgs as [|m rest IH]; intros w; simpl.
  - reflexivity.
  - rewrite receiveLog_closed.
    destruct (decide _) as [Hin|Hnin]; [destruct (consume_cases m w)
      as [(t & w' & _ & ->)|(e & w' & _ & ->)]|]; try reflexivity.
    apply IH.
Qed.

(** The link at which [receiveLog] stops delegating. *)
Lemma delegations_bound h logmsg w :
  (delegations h logmsg w < length (links h))%nat.
Proof.
  induction h as [cls|cls n IH] using chain_ind.
  - rewrite delegations_end. simpl. lia.
  - destruct (decide (type logmsg = accepts cls)) as [Heq|Hne].
    + rewrite (delegations_match _ _ _ _ Heq). simpl. lia.
    + rewrite (delegations_delegate _ _ _ _ Hne). simpl. lia.
Qed.

Lemma delegations_stop h logmsg w :
  exists l, nth_link (delegations h logmsg w) h = Some l
    /\ (type logmsg ∈ severities h -> type logmsg = accepts (handler_class l))
    /\ (type logmsg ∉ severities h ->
          next l = None /\ S (delegations h logmsg w) = length (links h)).
Proof.
  induction h as [cls|cls n IH] using chain_ind.
  - rewrite delegations_end, severities_last.
    exists (make_handler cls None). split; [reflexivity|]. split.
    + intros Hin. apply list_elem_of_singleton in Hin. exact Hin.
    + intros _. split; reflexivity.
  - rewrite severities_link.
    destruct (decide (type logmsg = accepts cls)) as [Heq|Hne].
    + rewrite (delegations_match _ _ _ _ Heq).
      exists (make_handler cls (Some n)). split; [reflexivity|]. split.
      * intros _. exact Heq.
      * intros Hnin. exfalso. apply Hnin. rewrite Heq. apply list_elem_of_here.
    + rewrite (delegations_delegate _ _ _ _ Hne).
      destruct IH as (l & Hl & Hin & Hnin).
      exists l. split; [exact Hl|]. split.
      * intros H. apply elem_of_cons in H as [H|H]; [contradiction|auto].
      * intros H. destruct Hnin as [Hn Hlen].
        -- intros Hin'. apply H. apply list_elem_of_further. exact Hin'.
        -- split; [exact Hn|]. simpl. rewrite Hlen. reflexivity.
Qed.

(** The links before the one where [receiveLog] stops are bound to other
    severities than the type of the message. *)
Lemma delegations_before h logmsg w j l :
  (j < delegations h logmsg w)%nat ->
  nth_link j h = Some l ->
  type logmsg <> accepts (handler_class l).
Proof.
  revert j. induction h as [cls|cls n IH] using chain_ind; intros j Hj Hl.
  - rewrite delegations_end in Hj. lia.
  - destruct (decide (type logmsg = accepts cls)) as [Heq|Hne].
    + rewrite (delegations_match _ _ _ _ Heq) in Hj. lia.
    + rewrite (delegations_delegate _ _ _ _ Hne) in Hj.
      destruct j as [|j]; simpl in Hl.
      * injection Hl as <-. exact Hne.
      * apply (IH j); [lia|exact Hl].
Qed.

Lemma driver_this h msgs w : fst (driver h msgs w) = h.
Proof.
  unfold driver. pose proof (route_all_this h msgs w) as Hh.
  destruct (route_all h msgs w) as [h' [[[]|e] w']]; exact Hh.
Qed.

Lemma driver_exit_code h msgs w : fst (snd (driver h msgs w)) = 0%Z.
Proof.
  unfold driver.
  destruct (route_all h msgs w) as [h' [[[]|e] w']]; reflexivity.
Qed.

(** C9: [receiveLog] terminates on every chain. The successor of a link
    heads a strictly shorter chain, the number of delegations of a call is
    below the length of the chain, and the call ends in one of three ways:
    a link bound to the type of the message consumes it, or [message()]
    throws at such a link and the exception is passed on, or no link is
    bound to the type and the last link throws the "should be handled"
    error. *)
Theorem receiveLog_terminates (h : LogHandler) (logmsg : LogMessage) (w : World) :
  (forall cls n,
      (length (links n) < length (links (make_handler cls (Some n))))%nat)
  /\ (delegations h logmsg w < length (links h))%nat
  /\ ((exists t w',
          message logmsg w = (Normal t, w')
          /\ type logmsg ∈ severities h
          /\ receiveLog h logmsg w = (h, (Normal tt, w')))
      \/ (exists e w',
             message logmsg w = (Raise e, w')
             /\ type logmsg ∈ severities h
             /\ receiveLog h logmsg w = (h, (Raise e, w')))
      \/ ((type logmsg ∉ severities h)
          /\ S (delegations h logmsg w) = length (links h)
          /\ receiveLog h logmsg w = (h, (Raise unhandled, w)))).
Proof.
  split; [|split].
  - intros cls n. simpl. lia.
  - apply delegations_bound.
  - rewrite receiveLog_closed.
    destruct (decide (type logmsg ∈ severities h)) as [Hin|Hnin].
    + destruct (consume_cases logmsg w)
        as [(t & w' & Hm & ->)|(e & w' & Hm & ->)].
      * left. exists t, w'. auto.
      * right. left. exists e, w'. auto.
    + right. right. split; [exact Hnin|]. split; [|reflexivity].
      destruct (delegations_stop h logmsg w) as (l & _ & _ & Hend).
      apply Hend, Hnin.
Qed.

(** C10: routing leaves the chain as it was. After [receiveLog], however it
    ends, the receiver is the same chain: the same links, bound to the same
    severities, with the same successors. So it is after any sequence of
    routing calls, and after the driver. *)
Theorem receiveLog_chain_unchanged
    (h : LogHandler) (logmsg : LogMessage) (msgs : list LogMessage) (w : World) :
  fst (receiveLog h logmsg w) = h
  /\ links (fst (receiveLog h logmsg w)) = links h
  /\ severities (fst (receiveLog h logmsg w)) = severities h
  /\ fst (route_all h msgs w) = h
  /\ fst (driver h msgs w) = h.
Proof.
  rewrite receiveLog_this, route_all_this, driver_this. repeat split.
Qed.

(** C7: when no link of the chain is bound to the type of the message,
    routing throws the "should be handled" error and the world is exactly
    as before the call: no stream, no file and no sink was touched. *)
Theorem unmatched_message_unhandled
    (h : LogHandler) (logmsg : LogMessage) (w : World) :
  type logmsg ∉ severities h ->
  receiveLog h logmsg w = (h, (Raise unhandled, w)).
Proof.
  intros Hnin. rewrite receiveLog_closed.
  rewrite decide_False by exact Hnin. reflexivity.
Qed.

(** C7 on the chain of [main] without its first link: an unknown message
    finds no link bound to its type. *)
Lemma unmatched_message_unhandled_witness :
  (tUnknownMessage ∉ severities fatalerr_handler)
  /\ receiveLog fatalerr_handler UnknownMessageLogMessage
       (mkWorld ∅ ∅ ∅ {["file_path"]} [(cl, "warning")])
     = (fatalerr_handler,
        (Raise unhandled, mkWorld ∅ ∅ ∅ {["file_path"]} [(cl, "warning")])).
Proof.
  assert (Hnin : tUnknownMessage ∉ severities fatalerr_handler).
  { vm_compute. intros Hin. apply list_elem_of_In in Hin. simpl in Hin.
    intuition discriminate. }
  split; [exact Hnin|].
  apply (unmatched_message_unhandled fatalerr_handler UnknownMessageLogMessage).
  exact Hnin.
Defined.

(** C6: [message()] of a fatal-error message always throws a
    [std::runtime_error] whose text is "FatalError!", and that of an
    unknown message one whose text is "UnknownMessage!". Nothing is
    written. Wherever in a chain the link bound to the type is, routing the
    message throws that same exception. *)
Theorem fatal_messages_always_throw (w : World) :
  message FatalErrorLogMessage w = (Raise (runtime_error "FatalError!"), w)
  /\ message UnknownMessageLogMessage w
     = (Raise (runtime_error "UnknownMessage!"), w)
  /\ (forall h,
         tFatalError ∈ severities h ->
         receiveLog h FatalErrorLogMessage w
         = (h, (Raise (runtime_error "FatalError!"), w)))
  /\ (forall h,
         tUnknownMessage ∈ severities h ->
         receiveLog h UnknownMessageLogMessage w
         = (h, (Raise (runtime_error "UnknownMessage!"), w))).
Proof.
  split; [reflexivity|]. split; [reflexivity|]. split.
  - intros h Hin. rewrite receiveLog_closed.
    rewrite decide_True by exact Hin. reflexivity.
  - intros h Hin. rewrite receiveLog_closed.
    rewrite decide_True by exact Hin. reflexivity.
Qed.

(** ** The sinks *)

Lemma append_assoc (a b c : string) : (a +:+ b) +:+ c = a +:+ b +:+ c.
Proof.
  induction a as [|x a IH]; [reflexivity|].
  change (String x ((a +:+ b) +:+ c) = String x (a +:+ b +:+ c)).
  rewrite IH. reflexivity.
Qed.

Lemma ostream_content_put p message w :
  ostream_content (ostream_put p message w) p
  = ostream_content w p +:+ message +:+ endl.
Proof.
  unfold ostream_content at 1. unfold ostream_put. simpl.
  rewrite lookup_insert_eq. reflexivity.
Qed.

Lemma ostream_content_put_ne p q message w :
  p <> q ->
  ostream_content (ostream_put p message w) q = ostream_content w q.
Proof.
  intros Hne. unfold ostream_content, ostream_put. simpl.
  rewrite lookup_insert_ne by exact Hne. reflexivity.
Qed.

Lemma print_console p message w :
  print (ConsoleLog p) message w
  = (Normal tt, ostream_put p message (called (ConsoleLog p) message w)).
Proof. reflexivity. Qed.

(** [FileLog::print] when the stream cannot be opened: the stream is left
    in a failed state and nothing else changes. *)
Lemma print_file_open_fails path f message w :
  filebuf_open path (ofstream_at w f) w = None ->
  print (FileLog path f) message w
  = (Normal tt,
     set_ofstreams (<[f := mk_ofstream (filebuf (ofstream_at w f)) true]>)
       (called (FileLog path f) message w)).
Proof.
  intros Hopen.
  unfold print, bind, exec, ret. simpl.
  fold (called (FileLog path f) message w).
  assert (Hopen' : filebuf_open path
            (ofstream_at (called (FileLog path f) message w) f)
            (called (FileLog path f) message w) = None).
  { unfold filebuf_open in *. simpl in *.
    change (ofstream_at (called (FileLog path f) message w) f)
      with (ofstream_at w f).
    destruct (filebuf (ofstream_at w f)); [reflexivity|].
    destruct (decide (path ∈ unwritable w)); [reflexivity|discriminate]. }
  unfold ofstream_open. rewrite Hopen'.
  change (ofstream_at (called (FileLog path f) message w) f)
    with (ofstream_at w f).
  set (w1 := set_ofstreams _ _).
  assert (Hat : ofstream_at w1 f = mk_ofstream (filebuf (ofstream_at w f)) true).
  { unfold ofstream_at at 1, w1. simpl. rewrite lookup_insert_eq. reflexivity. }
  unfold is_open, ofstream_put. rewrite Hat. simpl.
  destruct (filebuf (ofstream_at w f)); reflexivity.
Qed.

(** [FileLog::print] when the stream is closed and the file can be opened:
    the line goes to the end of the file and the stream stays open. *)
Lemma print_file_open_succeeds path f message w :
  filebuf (ofstream_at w f) = None ->
  path ∉ unwritable w ->
  print (FileLog path f) message w
  = (Normal tt,
     mkWorld (ostreams w)
       (<[f := mk_ofstream (Some path) false]> (ofstreams w))
       (<[path := file_content w path +:+ message +:+ endl]> (files w))
       (unwritable w)
       (print_calls w ++ [(FileLog path f, message)])).
Proof.
  intros Hclosed Hok.
  unfold print, bind, exec, ret. simpl.
  fold (called (FileLog path f) message w).
  unfold ofstream_open, filebuf_open.
  change (ofstream_at (called (FileLog path f) message w) f)
    with (ofstream_at w f).
  rewrite Hclosed. simpl.
  rewrite decide_False by exact Hok. simpl.
  set (w1 := set_ofstreams _ _).
  assert (Hat : ofstream_at w1 f = mk_ofstream (Some path) false).
  { unfold ofstream_at, w1. simpl. rewrite lookup_insert_eq. reflexivity. }
  unfold is_open, ofstream_put. rewrite Hat. simpl.
  unfold set_files, w1, file_content. simpl.
  rewrite lookup_insert_eq, insert_insert_eq. reflexivity.
Qed.

Lemma print_returns this message w : fst (print this message w) = Normal tt.
Proof.
  destruct this as [path f|p]; [|reflexivity].
  unfold print, bind, exec, ret. simpl.
  destruct (is_open _ f); reflexivity.
Qed.

Lemma ofstream_put_print_calls f message w :
  print_calls (ofstream_put f message w) = print_calls w.
Proof.
  unfold ofstream_put.
  destruct (fail (ofstream_at w f)); [reflexivity|].
  destruct (filebuf (ofstream_at w f)); reflexivity.
Qed.

Lemma ofstream_open_print_calls f path w :
  print_calls (ofstream_open f path w) = print_calls w.
Proof.
  unfold ofstream_open, filebuf_open.
  destruct (filebuf (ofstream_at w f)); [reflexivity|].
  destruct (decide (path ∈ unwritable w)); reflexivity.
Qed.

(** A call of [print] is recorded once, after the calls made before. *)
Lemma print_recorded this message w :
  print_calls (snd (print this message w))
  = (print_calls w ++ [(this, message)])%list.
Proof.
  destruct this as [path f|p]; [|reflexivity].
  unfold print, bind, exec, ret. simpl.
  destruct (is_open _ f); simpl;
    rewrite ?ofstream_put_print_calls, ofstream_open_print_calls; reflexivity.
Qed.

(** C8: when opening the file for appending fails (the stream is already
    associated with a file, or the path cannot be opened), [FileLog::print]
    returns normally and writes nothing: no file and no output stream
    changes, and no other file stream does. The failure only shows in the
    state of the file stream itself, which keeps its association and is
    left failed. *)
Theorem file_print_open_failure_absorbed
    (path : string) (f : nat) (message : string) (w : World) :
  filebuf_open path (ofstream_at w f) w = None ->
  fst (print (FileLog path f) message w) = Normal tt
  /\ files (snd (print (FileLog path f) message w)) = files w
  /\ ostreams (snd (print (FileLog path f) message w)) = ostreams w
  /\ ofstreams (snd (print (FileLog path f) message w))
     = <[f := mk_ofstream (filebuf (ofstream_at w f)) true]> (ofstreams w).
Proof.
  intros Hopen. rewrite (print_file_open_fails _ _ _ _ Hopen).
  repeat split.
Qed.

(** C8 at two worlds: the path of [main] made unwritable, and a stream
    that is still open from an earlier write. *)
Lemma file_print_open_failure_absorbed_witness :
  (filebuf_open "file_path" (ofstream_at (mkWorld ∅ ∅ ∅ {["file_path"]} []) ofs)
     (mkWorld ∅ ∅ ∅ {["file_path"]} []) = None
   /\ files (snd (print fl "Error" (mkWorld ∅ ∅ ∅ {["file_path"]} []))) = ∅)
  /\ (filebuf_open "file_path"
        (ofstream_at (snd (print fl "Error" (mkWorld ∅ ∅ ∅ ∅ []))) ofs)
        (snd (print fl "Error" (mkWorld ∅ ∅ ∅ ∅ []))) = None
      /\ files (snd (print fl "Error" (snd (print fl "Error" (mkWorld ∅ ∅ ∅ ∅ [])))))
         = files (snd (print fl "Error" (mkWorld ∅ ∅ ∅ ∅ [])))).
Proof.
  split.
  - split; [vm_compute; reflexivity|].
    apply (file_print_open_failure_absorbed "file_path" ofs "Error"
             (mkWorld ∅ ∅ ∅ {["file_path"]} [])).
    vm_compute. reflexivity.
  - split; [vm_compute; reflexivity|].
    apply (file_print_open_failure_absorbed "file_path" ofs "Error"
             (snd (print fl "Error" (mkWorld ∅ ∅ ∅ ∅ [])))).
    vm_compute. reflexivity.
Defined.

(** ** Messages that write *)

Lemma message_warning lc w :
  message (WarningLogMessage lc) w
  = (Normal "warning", snd (print lc "warning" w)).
Proof.
  unfold message, bind, ret.
  pose proof (print_returns lc "warning" w) as Hr.
  destruct (print lc "warning" w) as [[[]|e] w']; simpl in *; congruence.
Qed.

Lemma message_error lc w :
  message (ErrorLogMessage lc) w
  = (Normal "Error", snd (print lc "Error" w)).
Proof.
  unfold message, bind, ret.
  pose proof (print_returns lc "Error" w) as Hr.
  destruct (print lc "Error" w) as [[[]|e] w']; simpl in *; congruence.
Qed.

Lemma consume_warning lc w :
  consume (WarningLogMessage lc) w = (Normal tt, snd (print lc "warning" w)).
Proof. unfold consume. rewrite message_warning. reflexivity. Qed.

Lemma consume_error lc w :
  consume (ErrorLogMessage lc) w = (Normal tt, snd (print lc "Error" w)).
Proof. unfold consume. rewrite message_error. reflexivity. Qed.

(** C5: a warning message routed through a chain that has a link for
    warnings makes exactly one call of [print], with the text "warning", on
    the sink it was built with, and its [message()] returns "warning"; the
    world after routing is the world after that one call. The same holds
    for an error message, a link for errors and the text "Error". *)
Theorem warning_and_error_written_once
    (h : LogHandler) (lc : LogCommand) (w : World) :
  tWarning ∈ severities h ->
  tError ∈ severities h ->
  (message (WarningLogMessage lc) w
   = (Normal "warning", snd (print lc "warning" w))
   /\ receiveLog h (WarningLogMessage lc) w
      = (h, (Normal tt, snd (print lc "warning" w)))
   /\ print_calls (snd (snd (receiveLog h (WarningLogMessage lc) w)))
      = (print_calls w ++ [(lc, "warning")])%list)
  /\ (message (ErrorLogMessage lc) w
      = (Normal "Error", snd (print lc "Error" w))
      /\ receiveLog h (ErrorLogMessage lc) w
         = (h, (Normal tt, snd (print lc "Error" w)))
      /\ print_calls (snd (snd (receiveLog h (ErrorLogMessage lc) w)))
         = (print_calls w ++ [(lc, "Error")])%list).
Proof.
  intros Hw He. split.
  - split; [apply message_warning|].
    assert (Hr : receiveLog h (WarningLogMessage lc) w
                 = (h, (Normal tt, snd (print lc "warning" w)))).
    { rewrite receiveLog_closed. rewrite decide_True by exact Hw.
      rewrite consume_warning. reflexivity. }
    split; [exact Hr|]. rewrite Hr. apply print_recorded.
  - split; [apply message_error|].
    assert (Hr : receiveLog h (ErrorLogMessage lc) w
                 = (h, (Normal tt, snd (print lc "Error" w)))).
    { rewrite receiveLog_closed. rewrite decide_True by exact He.
      rewrite consume_error. reflexivity. }
    split; [exact Hr|]. rewrite Hr. apply print_recorded.
Qed.

Lemma severities_main_chain :
  severities unknowmes_handler = [tUnknownMessage; tFatalError; tError; tWarning].
Proof. reflexivity. Qed.

(** C5 on the chain of [main], with the console sink, in a world where
    nothing has been written yet. *)
Lemma warning_and_error_written_once_witness :
  (tWarning ∈ severities unknowmes_handler)
  /\ (tError ∈ severities unknowmes_handler)
  /\ print_calls
       (snd (snd (receiveLog unknowmes_handler (WarningLogMessage cl)
                    (mkWorld ∅ ∅ ∅ ∅ []))))
     = ([] ++ [(cl, "warning")])%list
  /\ print_calls
       (snd (snd (receiveLog unknowmes_handler (ErrorLogMessage cl)
                    (mkWorld ∅ ∅ ∅ ∅ []))))
     = ([] ++ [(cl, "Error")])%list.
Proof.
  assert (Hw : tWarning ∈ severities unknowmes_handler).
  { rewrite severities_main_chain. apply list_elem_of_In. simpl. tauto. }
  assert (He : tError ∈ severities unknowmes_handler).
  { rewrite severities_main_chain. apply list_elem_of_In. simpl. tauto. }
  split; [exact Hw|]. split; [exact He|].
  pose proof (warning_and_error_written_once unknowmes_handler cl
                (mkWorld ∅ ∅ ∅ ∅ []) Hw He) as [(_ & _ & H1) (_ & _ & H2)].
  split; [exact H1|exact H2].
Defined.

(** ** The chain of [main] *)

Ltac unfold_main_chain :=
  unfold unknowmes_handler, fatalerr_handler, err_handler, warn_handler.

Lemma main_chain_delegations logmsg w :
  delegations unknowmes_handler logmsg w
  = match type logmsg with
    | tUnknownMessage => 0
    | tFatalError => 1
    | tError => 2
    | tWarning => 3
    end%nat.
Proof.
  unfold_main_chain.
  destruct logmsg as [lc|lc| |]; simpl type;
    rewrite ?delegations_delegate by discriminate;
    rewrite delegations_match by reflexivity; reflexivity.
Qed.

Lemma main_chain_in logmsg : type logmsg ∈ severities unknowmes_handler.
Proof.
  rewrite severities_main_chain. apply list_elem_of_In.
  destruct logmsg; simpl; tauto.
Qed.

(** The chain cut before the link where [receiveLog] stops delegating
    leaves the message unhandled, and the world as it was. *)
Lemma receiveLog_cut_before h logmsg w j :
  (j < delegations h logmsg w)%nat ->
  receiveLog (cut j h) logmsg w = (cut j h, (Raise unhandled, w)).
Proof.
  revert j. induction h as [cls|cls n IH] using chain_ind; intros j Hj.
  - rewrite delegations_end in Hj. lia.
  - destruct (decide (type logmsg = accepts cls)) as [Heq|Hne].
    + rewrite (delegations_match _ _ _ _ Heq) in Hj. lia.
    + rewrite (delegations_delegate _ _ _ _ Hne) in Hj.
      destruct j as [|j]; simpl cut.
      * apply receiveLog_end, Hne.
      * rewrite (receiveLog_delegate _ _ _ _ Hne).
        rewrite (IH j) by lia. reflexivity.
Qed.

(** The chain cut right after that link consumes the message, when some
    link is bound to its type. *)
Lemma receiveLog_cut_at h logmsg w :
  type logmsg ∈ severities h ->
  receiveLog (cut (delegations h logmsg w) h) logmsg w
  = (cut (delegations h logmsg w) h, consume logmsg w).
Proof.
  induction h as [cls|cls n IH] using chain_ind; intros Hin.
  - rewrite severities_last in Hin. apply list_elem_of_singleton in Hin.
    rewrite delegations_end. simpl cut. apply receiveLog_match, Hin.
  - rewrite severities_link in Hin.
    destruct (decide (type logmsg = accepts cls)) as [Heq|Hne].
    + rewrite (delegations_match _ _ _ _ Heq). simpl cut.
      apply receiveLog_match, Heq.
    + rewrite (delegations_delegate _ _ _ _ Hne). simpl cut.
      apply elem_of_cons in Hin as [Hin|Hin]; [contradiction|].
      rewrite (receiveLog_delegate _ _ _ _ Hne).
      rewrite (IH Hin). reflexivity.
Qed.

(** C4: in the chain of [main], entered at its first link, a message of
    any of the four types is consumed by the one link bound to its type
    and by no other. [receiveLog] on the whole chain gives the result of
    the message's [message()]; the link bound to the type is the only one
    of the chain that is; [receiveLog] on the chain cut before that link
    leaves the message unhandled and the world untouched, and on the
    chain cut right after it consumes the message; every other link of
    the chain, taken alone, leaves the message unhandled. The number of
    delegations is 0 for an unknown message, 1 for a fatal error, 2 for an
    error and 3 for a warning: the first three links together do not
    consume a warning, and the first link alone consumes an unknown
    message. *)
Theorem main_chain_routes_by_severity (logmsg : LogMessage) (w : World) :
  delegations unknowmes_handler logmsg w
  = match type logmsg with
    | tUnknownMessage => 0
    | tFatalError => 1
    | tError => 2
    | tWarning => 3
    end%nat
  /\ (forall j l,
         nth_link j unknowmes_handler = Some l ->
         (accepts (handler_class l) = type logmsg
          <-> j = delegations unknowmes_handler logmsg w))
  /\ receiveLog unknowmes_handler logmsg w
     = (unknowmes_handler, consume logmsg w)
  /\ (forall lc,
         delegations unknowmes_handler (WarningLogMessage lc) w = 3%nat)
  /\ delegations unknowmes_handler UnknownMessageLogMessage w = 0%nat
  /\ (forall j,
         (j < delegations unknowmes_handler logmsg w)%nat ->
         receiveLog (cut j unknowmes_handler) logmsg w
         = (cut j unknowmes_handler, (Raise unhandled, w)))
  /\ receiveLog
       (cut (delegations unknowmes_handler logmsg w) unknowmes_handler)
       logmsg w
     = (cut (delegations unknowmes_handler logmsg w) unknowmes_handler,
        consume logmsg w)
  /\ (forall j l,
         nth_link j unknowmes_handler = Some l ->
         j <> delegations unknowmes_handler logmsg w ->
         receiveLog (make_handler (handler_class l) None) logmsg w
         = (make_handler (handler_class l) None, (Raise unhandled, w)))
  /\ (forall lc,
         receiveLog
           (make_handler UnknownMessageLogHandler
              (Some (make_handler FatalErrorLogHandler
                 (Some (make_handler ErrorLogHandler None)))))
           (WarningLogMessage lc) w
         = (make_handler UnknownMessageLogHandler
              (Some (make_handler FatalErrorLogHandler
                 (Some (make_handler ErrorLogHandler None)))),
            (Raise unhandled, w))
         /\ receiveLog warn_handler (WarningLogMessage lc) w
            = (warn_handler, (Normal tt, snd (print lc "warning" w))))
  /\ receiveLog (make_handler UnknownMessageLogHandler None)
       UnknownMessageLogMessage w
     = (make_handler UnknownMessageLogHandler None,
        (Raise (runtime_error "UnknownMessage!"), w)).
Proof.
  assert (Hunique : forall j l,
             nth_link j unknowmes_handler = Some l ->
             (accepts (handler_class l) = type logmsg
              <-> j = delegations unknowmes_handler logmsg w)).
  { intros j l Hl. rewrite main_chain_delegations.
    do 4 (destruct j as [|j];
          [injection Hl as <-; destruct logmsg; simpl; split;
             intros H; first [discriminate H | reflexivity]|]).
    discriminate Hl. }
  split; [apply main_chain_delegations|]. split; [exact Hunique|].
  split; [|split; [|split; [|split; [|split; [|split; [|split]]]]]].
  - rewrite receiveLog_closed.
    rewrite decide_True by apply main_chain_in. reflexivity.
  - intros lc. apply main_chain_delegations.
  - apply main_chain_delegations.
  - intros j Hj. apply receiveLog_cut_before, Hj.
  - apply receiveLog_cut_at, main_chain_in.
  - intros j l Hl Hj. apply receiveLog_end.
    intros Hty. apply Hj. apply (Hunique j l Hl). symmetry. exact Hty.
  - intros lc. split.
    + rewrite !receiveLog_delegate by discriminate.
      rewrite receiveLog_end by discriminate. reflexivity.
    + unfold warn_handler. rewrite receiveLog_match by reflexivity.
      rewrite consume_warning. reflexivity.
  - rewrite receiveLog_match by reflexivity. reflexivity.
Qed.

(** What the operations on a file stream leave untouched. *)
Lemma ofstream_close_frame f w :
  ostreams (ofstream_close f w) = ostreams w
  /\ files (ofstream_close f w) = files w
  /\ print_calls (ofstream_close f w) = print_calls w.
Proof.
  unfold ofstream_close. destruct (filebuf (ofstream_at w f)); repeat split.
Qed.

Lemma ofstream_open_ostreams f path w :
  ostreams (ofstream_open f path w) = ostreams w.
Proof.
  unfold ofstream_open, filebuf_open.
  destruct (filebuf (ofstream_at w f)); [reflexivity|].
  destruct (decide (path ∈ unwritable w)); reflexivity.
Qed.

Lemma ofstream_put_ostreams f message w :
  ostreams (ofstream_put f message w) = ostreams w.
Proof.
  unfold ofstream_put.
  destruct (fail (ofstream_at w f)); [reflexivity|].
  destruct (filebuf (ofstream_at w f)); reflexivity.
Qed.

Lemma print_file_ostreams path f message w :
  ostreams (snd (print (FileLog path f) message w)) = ostreams w.
Proof.
  unfold print, bind, exec, ret. simpl.
  destruct (is_open _ f); simpl;
    rewrite ?ofstream_put_ostreams, ofstream_open_ostreams; reflexivity.
Qed.

(** The world [main] leaves, before the effects are read off. *)
Lemma main_closed w :
  main w
  = (0%Z,
     ofstream_close ofs
       (ostream_put cout "UnknownMessage!"
          (snd (print fl "Error" (snd (print cl "warning" (main_start w))))))).
Proof.
  unfold main, driver, main_messages, route_all.
  rewrite receiveLog_closed, decide_True by apply main_chain_in.
  rewrite consume_warning.
  rewrite receiveLog_closed, decide_True by apply main_chain_in.
  rewrite consume_error.
  rewrite receiveLog_closed, decide_True by apply main_chain_in.
  reflexivity.
Qed.

(** The file of [main] after the error message has been written through
    [fl], the stream [ofs] being default-constructed. *)
Lemma main_file_written w :
  files (snd (print fl "Error" (snd (print cl "warning" (main_start w)))))
  = if decide ("file_path" ∈ unwritable w)
    then files w
    else <["file_path" := file_content w "file_path" +:+ "Error" +:+ endl]> (files w).
Proof.
  set (w1 := snd (print cl "warning" (main_start w))).
  assert (Hat : ofstream_at w1 ofs = ofstream_init).
  { unfold ofstream_at, w1. simpl. rewrite lookup_insert_eq. reflexivity. }
  unfold fl.
  destruct (decide ("file_path" ∈ unwritable w)) as [Hin|Hnin].
  - rewrite print_file_open_fails; [reflexivity|].
    rewrite Hat. unfold filebuf_open. simpl.
    rewrite decide_True by exact Hin. reflexivity.
  - rewrite print_file_open_succeeds; [reflexivity| |exact Hnin].
    rewrite Hat. reflexivity.
Qed.

(** C2: the run of [main]. From the world [w0] in which the locals are
    constructed, routing the warning built on the console sink returns
    normally after one call of [print] on that sink; routing the error
    built on the file sink returns normally after one call of [print] on
    that sink; routing the unknown message throws a [std::runtime_error]
    whose text is "UnknownMessage!". [main] returns 0. At exit the calls of
    [print] made are ["warning"] on the console sink and ["Error"] on the
    file sink, in that order; the standard output has received the line
    "warning" and then the line "UnknownMessage!"; the file "file_path" has
    received the line "Error" unless it cannot be opened; no other stream
    or file has changed. *)
Theorem main_scenario (w : World) :
  let w0 := main_start w in
  let w1 := snd (print cl "warning" w0) in
  let w2 := snd (print fl "Error" w1) in
  receiveLog unknowmes_handler (WarningLogMessage cl) w0
  = (unknowmes_handler, (Normal tt, w1))
  /\ receiveLog unknowmes_handler (ErrorLogMessage fl) w1
     = (unknowmes_handler, (Normal tt, w2))
  /\ receiveLog unknowmes_handler UnknownMessageLogMessage w2
     = (unknowmes_handler, (Raise (runtime_error "UnknownMessage!"), w2))
  /\ fst (main w) = 0%Z
  /\ print_calls (snd (main w))
     = (print_calls w ++ [(cl, "warning"); (fl, "Error")])%list
  /\ ostream_content (snd (main w)) cout
     = ostream_content w cout
       +:+ "warning" +:+ endl +:+ "UnknownMessage!" +:+ endl
  /\ file_content (snd (main w)) "file_path"
     = (if decide ("file_path" ∈ unwritable w)
        then file_content w "file_path"
        else file_content w "file_path" +:+ "Error" +:+ endl)
  /\ (forall p, p <> cout ->
        ostream_content (snd (main w)) p = ostream_content w p)
  /\ (forall path, path <> "file_path" ->
        files (snd (main w)) !! path = files w !! path).
Proof.
  intros w0 w1 w2.
  split; [|split; [|split]].
  - rewrite receiveLog_closed, decide_True by apply main_chain_in.
    rewrite consume_warning. reflexivity.
  - rewrite receiveLog_closed, decide_True by apply main_chain_in.
    rewrite consume_error. reflexivity.
  - rewrite receiveLog_closed, decide_True by apply main_chain_in.
    reflexivity.
  - rewrite main_closed. fold w0. fold w1. fold w2. simpl fst. simpl snd.
    destruct (ofstream_close_frame ofs (ostream_put cout "UnknownMessage!" w2))
      as (Hos & Hfs & Hpc).
    split; [reflexivity|]. split; [|split; [|split; [|split]]].
    + rewrite Hpc. simpl. unfold w2. rewrite print_recorded.
      unfold w1. rewrite print_recorded. simpl.
      rewrite <- app_assoc. reflexivity.
    + unfold ostream_content at 1. rewrite Hos.
      fold (ostream_content (ostream_put cout "UnknownMessage!" w2) cout).
      rewrite ostream_content_put.
      unfold ostream_content at 1. unfold w2, fl.
      rewrite print_file_ostreams.
      fold (ostream_content w1 cout).
      unfold w1, cl. rewrite print_console. cbn [snd].
      rewrite ostream_content_put, append_assoc. reflexivity.
    + unfold file_content at 1. rewrite Hfs. simpl.
      unfold w2, w1, w0. rewrite main_file_written.
      destruct (decide ("file_path" ∈ unwritable w)); [reflexivity|].
      rewrite lookup_insert_eq. reflexivity.
    + intros p Hp. unfold ostream_content at 1. rewrite Hos.
      fold (ostream_content (ostream_put cout "UnknownMessage!" w2) p).
      rewrite ostream_content_put_ne by (intros Heq; apply Hp; symmetry; exact Heq).
      unfold ostream_content at 1. unfold w2, fl.
      rewrite print_file_ostreams.
      fold (ostream_content w1 p).
      unfold w1, cl. rewrite print_console. cbn [snd].
      rewrite ostream_content_put_ne by (intros Heq; apply Hp; symmetry; exact Heq).
      reflexivity.
    + intros path Hpath. rewrite Hfs. simpl.
      unfold w2, w1, w0. rewrite main_file_written.
      destruct (decide ("file_path" ∈ unwritable w)); [reflexivity|].
      rewrite lookup_insert_ne by (intros Heq; apply Hpath; symmetry; exact Heq).
      reflexivity.
Qed.

(** ** The driver and failures *)

Lemma route_all_app h before after w :
  route_all h (before ++ after) w
  = match route_all h before w with
    | (h', (Normal _, w')) => route_all h' after w'
    | (h', (Raise e, w')) => (h', (Raise e, w'))
    end.
Proof.
  revert h w. induction before as [|m before IH]; intros h w; simpl.
  - reflexivity.
  - destruct (receiveLog h m w) as [h' [[[]|e] w']]; [apply IH|reflexivity].
Qed.

(** The single [try] block of the driver, for any list of routing calls:
    when a call throws, after the calls before it returned normally, the
    driver prints the text of the exception to the standard output and
    returns 0; the messages after the failed call are not routed (the
    result does not depend on them). Every run of the driver returns 0. *)
Theorem driver_stops_at_first_failure
    (h : LogHandler) (before : list LogMessage) (logmsg : LogMessage)
    (after : list LogMessage) (w w1 w2 : World) (e : exception) :
  route_all h before w = (h, (Normal tt, w1)) ->
  receiveLog h logmsg w1 = (h, (Raise e, w2)) ->
  driver h (before ++ logmsg :: after) w
  = (h, (0%Z, ostream_put cout (what e) w2))
  /\ (forall msgs w', fst (snd (driver h msgs w')) = 0%Z).
Proof.
  intros Hbefore Hfail. split.
  - unfold driver. rewrite route_all_app, Hbefore. simpl.
    rewrite Hfail. reflexivity.
  - intros msgs w'. apply driver_exit_code.
Qed.

(** On the chain of [main]: a warning, then a fatal error, then an error
    for the file sink, which is never routed. *)
Lemma driver_stops_at_first_failure_witness :
  route_all unknowmes_handler [WarningLogMessage cl] (mkWorld ∅ ∅ ∅ ∅ [])
  = (unknowmes_handler, (Normal tt, snd (print cl "warning" (mkWorld ∅ ∅ ∅ ∅ []))))
  /\ driver unknowmes_handler
       [WarningLogMessage cl; FatalErrorLogMessage; ErrorLogMessage fl]
       (mkWorld ∅ ∅ ∅ ∅ [])
     = (unknowmes_handler,
        (0%Z, ostream_put cout "FatalError!"
                (snd (print cl "warning" (mkWorld ∅ ∅ ∅ ∅ []))))).
Proof.
  split; [vm_compute; reflexivity|].
  apply (driver_stops_at_first_failure unknowmes_handler
           [WarningLogMessage cl] FatalErrorLogMessage [ErrorLogMessage fl]
           (mkWorld ∅ ∅ ∅ ∅ [])
           (snd (print cl "warning" (mkWorld ∅ ∅ ∅ ∅ [])))
           (snd (print cl "warning" (mkWorld ∅ ∅ ∅ ∅ [])))
           (runtime_error "FatalError!")).
  - vm_compute. reflexivity.
  - vm_compute. reflexivity.
Defined.

(** The driver with one [try] block and a driver that catches after each
    call differ only on lists of calls that [main] does not make, those
    where a call before the last one throws: with a fatal error routed
    first and a warning second, the first prints "FatalError!" and never
    routes the warning, the second goes on and routes it. *)
Lemma drivers_differ_on_early_failure :
  snd (receiveLog unknowmes_handler FatalErrorLogMessage (mkWorld ∅ ∅ ∅ ∅ []))
  = (Raise (runtime_error "FatalError!"), mkWorld ∅ ∅ ∅ ∅ [])
  /\ print_calls
       (snd (snd (driver unknowmes_handler
                    [FatalErrorLogMessage; WarningLogMessage cl]
                    (mkWorld ∅ ∅ ∅ ∅ []))))
     = []
  /\ ostream_content
       (snd (snd (driver unknowmes_handler
                    [FatalErrorLogMessage; WarningLogMessage cl]
                    (mkWorld ∅ ∅ ∅ ∅ []))))
       cout
     = "FatalError!" +:+ endl
  /\ print_calls
       (snd (snd (driver_per_message unknowmes_handler
                    [FatalErrorLogMessage; WarningLogMessage cl]
                    (mkWorld ∅ ∅ ∅ ∅ []))))
     = [(cl, "warning")]
  /\ ostream_content
       (snd (snd (driver_per_message unknowmes_handler
                    [FatalErrorLogMessage; WarningLogMessage cl]
                    (mkWorld ∅ ∅ ∅ ∅ []))))
       cout
     = "FatalError!" +:+ endl +:+ "warning" +:+ endl.
Proof.
  split; [vm_compute; reflexivity|].
  split; [vm_compute; reflexivity|].
  split; [vm_compute; reflexivity|].
  split; [vm_compute; reflexivity|].
  vm_compute; reflexivity.
Qed.

(** A driver that catches after each call does what the single [try]
    block does as long as no call throws. *)
Lemma driver_per_message_normal h msgs w :
  fst (snd (route_all h msgs w)) = Normal tt ->
  driver_per_message h msgs w = driver h msgs w.
Proof.
  revert h w. induction msgs as [|m rest IH]; intros h w; unfold driver; simpl.
  - reflexivity.
  - destruct (receiveLog h m w) as [h' [[[]|e] w']]; simpl.
    + intros Hn. rewrite (IH h' w' Hn). reflexivity.
    + discriminate.
Qed.



(** * Further properties of the sinks *)

Lemma print_file_unfold path f message w :
  print (FileLog path f) message w
  = (Normal tt,
     if is_open (ofstream_open f path (called (FileLog path f) message w)) f
     then ofstream_put f message
            (ofstream_open f path (called (FileLog path f) message w))
     else ofstream_open f path (called (FileLog path f) message w)).
Proof.
  unfold print, bind, exec, ret. simpl.
  destruct (is_open _ f); reflexivity.
Qed.

(** Opening fails exactly when the stream is already associated with a
    file or the path cannot be opened. *)
Lemma filebuf_open_cases path s w :
  (filebuf_open path s w = None)
  \/ (filebuf s = None /\ path ∉ unwritable w).
Proof.
  unfold filebuf_open. destruct (filebuf s); [left; reflexivity|].
  destruct (decide (path ∈ unwritable w)); [left; reflexivity|right; auto].
Qed.

(** [FileLog::print] on a closed stream and a path that can be opened: the
    call returns normally, the file has its earlier contents followed by
    the message and a newline (the earlier failure state of the stream
    does not matter), no other file and no output stream changes, and the
    stream is left open on the path, in a good state. *)
Theorem file_print_appends_line
    (path : string) (f : nat) (message : string) (w : World) :
  filebuf (ofstream_at w f) = None ->
  path ∉ unwritable w ->
  fst (print (FileLog path f) message w) = Normal tt
  /\ file_content (snd (print (FileLog path f) message w)) path
     = file_content w path +:+ message +:+ endl
  /\ (forall q, q <> path ->
        files (snd (print (FileLog path f) message w)) !! q = files w !! q)
  /\ ofstream_at (snd (print (FileLog path f) message w)) f
     = mk_ofstream (Some path) false
  /\ ostreams (snd (print (FileLog path f) message w)) = ostreams w.
Proof.
  intros Hclosed Hok.
  rewrite (print_file_open_succeeds _ _ _ _ Hclosed Hok). cbn [fst snd].
  split; [reflexivity|]. split; [|split; [|split]].
  - unfold file_content at 1. simpl. rewrite lookup_insert_eq. reflexivity.
  - intros q Hq. simpl.
    rewrite lookup_insert_ne by (intros Heq; apply Hq; symmetry; exact Heq).
    reflexivity.
  - unfold ofstream_at. simpl. rewrite lookup_insert_eq. reflexivity.
  - reflexivity.
Qed.

(** The file sink of [main] in a world with a file that already has a
    line, and a stream left failed by a [close] while not open. *)
Lemma file_print_appends_line_witness :
  file_content
    (snd (print fl "Error"
            (mkWorld ∅ {[ofs := mk_ofstream None true]}
               {["file_path" := "old" +:+ endl]} ∅ [])))
    "file_path"
  = file_content
      (mkWorld ∅ {[ofs := mk_ofstream None true]}
         {["file_path" := "old" +:+ endl]} ∅ [])
      "file_path"
    +:+ "Error" +:+ endl.
Proof.
  apply (file_print_appends_line "file_path" ofs "Error"
           (mkWorld ∅ {[ofs := mk_ofstream None true]}
              {["file_path" := "old" +:+ endl]} ∅ [])).
  - vm_compute. reflexivity.
  - simpl. apply not_elem_of_empty.
Defined.

Lemma print_file_second path2 f message2 w :
  (exists path1, filebuf (ofstream_at w f) = Some path1) ->
  print (FileLog path2 f) message2 w
  = (Normal tt,
     set_ofstreams (<[f := mk_ofstream (filebuf (ofstream_at w f)) true]>)
       (called (FileLog path2 f) message2 w)).
Proof.
  intros [path1 Hopen]. apply print_file_open_fails.
  unfold filebuf_open. rewrite Hopen. reflexivity.
Qed.

(** Two writes through file sinks on the same stream, with no [close]
    between them: [print] opens the stream on every call and never closes
    it, so the second [open] fails and the second line is dropped. Both
    calls return normally; after the second one the files are as the first
    one left them, the first line being the last of its file. *)
Theorem file_print_second_write_lost
    (path1 path2 : string) (f : nat) (message1 message2 : string) (w : World) :
  filebuf (ofstream_at w f) = None ->
  path1 ∉ unwritable w ->
  fst (print (FileLog path2 f) message2
         (snd (print (FileLog path1 f) message1 w))) = Normal tt
  /\ files (snd (print (FileLog path2 f) message2
                   (snd (print (FileLog path1 f) message1 w))))
     = files (snd (print (FileLog path1 f) message1 w))
  /\ file_content (snd (print (FileLog path2 f) message2
                          (snd (print (FileLog path1 f) message1 w)))) path1
     = file_content w path1 +:+ message1 +:+ endl
  /\ print_calls (snd (print (FileLog path2 f) message2
                         (snd (print (FileLog path1 f) message1 w))))
     = (print_calls w
        ++ [(FileLog path1 f, message1); (FileLog path2 f, message2)])%list.
Proof.
  intros Hclosed Hok.
  set (w1 := snd (print (FileLog path1 f) message1 w)).
  assert (Hw1 : w1 = mkWorld (ostreams w)
            (<[f := mk_ofstream (Some path1) false]> (ofstreams w))
            (<[path1 := file_content w path1 +:+ message1 +:+ endl]> (files w))
            (unwritable w)
            (print_calls w ++ [(FileLog path1 f, message1)])).
  { unfold w1. rewrite (print_file_open_succeeds _ _ _ _ Hclosed Hok).
    reflexivity. }
  assert (Hat : filebuf (ofstream_at w1 f) = Some path1).
  { rewrite Hw1. unfold ofstream_at. simpl. rewrite lookup_insert_eq.
    reflexivity. }
  rewrite (print_file_second path2 f message2 w1) by (exists path1; exact Hat).
  cbn [fst snd]. split; [reflexivity|]. split; [reflexivity|]. split.
  - unfold file_content at 1. simpl. rewrite Hw1. simpl.
    rewrite lookup_insert_eq. reflexivity.
  - simpl. rewrite Hw1. simpl. rewrite <- app_assoc. reflexivity.
Qed.

(** Two errors written through the file sink of [main]: the file has one
    line. *)
Lemma file_print_second_write_lost_witness :
  file_content
    (snd (print fl "Error" (snd (print fl "Error" (mkWorld ∅ ∅ ∅ ∅ [])))))
    "file_path"
  = file_content (mkWorld ∅ ∅ ∅ ∅ []) "file_path" +:+ "Error" +:+ endl.
Proof.
  apply (file_print_second_write_lost "file_path" "file_path" ofs
           "Error" "Error" (mkWorld ∅ ∅ ∅ ∅ [])).
  - vm_compute. reflexivity.
  - simpl. apply not_elem_of_empty.
Defined.

(** [~FileLog] between two writes: the destructor closes the stream, so a
    file sink built afterwards on the same stream and path opens it again,
    and the file ends with the two lines, in the order written. *)
Theorem file_print_after_destroy
    (path : string) (f : nat) (message1 message2 : string) (w : World) :
  filebuf (ofstream_at w f) = None ->
  path ∉ unwritable w ->
  file_content
    (snd (print (FileLog path f) message2
            (snd (destroy (FileLog path f)
                    (snd (print (FileLog path f) message1 w))))))
    path
  = file_content w path +:+ message1 +:+ endl +:+ message2 +:+ endl.
Proof.
  intros Hclosed Hok.
  rewrite (print_file_open_succeeds _ _ _ _ Hclosed Hok). cbn [snd].
  set (w1 := mkWorld _ _ _ _ _).
  assert (Hat : ofstream_at w1 f = mk_ofstream (Some path) false).
  { unfold ofstream_at, w1. simpl. rewrite lookup_insert_eq. reflexivity. }
  unfold destroy, exec. cbn [snd]. unfold ofstream_close. rewrite Hat. simpl.
  set (w2 := set_ofstreams _ w1).
  assert (Hclosed2 : filebuf (ofstream_at w2 f) = None).
  { unfold ofstream_at, w2. simpl. rewrite lookup_insert_eq. reflexivity. }
  rewrite (print_file_open_succeeds path f message2 w2 Hclosed2 Hok).
  unfold file_content at 1. simpl. rewrite lookup_insert_eq.
  unfold file_content at 1. simpl. rewrite lookup_insert_eq.
  simpl. rewrite append_assoc. f_equal. rewrite append_assoc. reflexivity.
Qed.

(** The file sink of [main], written, destroyed and written again. *)
Lemma file_print_after_destroy_witness :
  file_content
    (snd (print fl "Error"
            (snd (destroy fl (snd (print fl "Error" (mkWorld ∅ ∅ ∅ ∅ [])))))))
    "file_path"
  = file_content (mkWorld ∅ ∅ ∅ ∅ []) "file_path"
    +:+ "Error" +:+ endl +:+ "Error" +:+ endl.
Proof.
  apply (file_print_after_destroy "file_path" ofs "Error" "Error"
           (mkWorld ∅ ∅ ∅ ∅ [])).
  - vm_compute. reflexivity.
  - simpl. apply not_elem_of_empty.
Defined.

(** A call of [print] changes nothing but its target: a console sink adds
    the message and a newline to its own stream and leaves every other
    stream, every file and every file stream as they were; a file sink
    leaves every output stream, every file but the one at its path and
    every file stream but its own as they were. The call always returns
    normally. *)
Theorem print_changes_only_its_target
    (this : LogCommand) (message : string) (w : World) :
  fst (print this message w) = Normal tt
  /\ unwritable (snd (print this message w)) = unwritable w
  /\ match this with
     | ConsoleLog p =>
         ostream_content (snd (print this message w)) p
         = ostream_content w p +:+ message +:+ endl
         /\ (forall q, q <> p ->
               ostreams (snd (print this message w)) !! q = ostreams w !! q)
         /\ files (snd (print this message w)) = files w
         /\ ofstreams (snd (print this message w)) = ofstreams w
     | FileLog path f =>
         ostreams (snd (print this message w)) = ostreams w
         /\ (forall q, q <> path ->
               files (snd (print this message w)) !! q = files w !! q)
         /\ (forall g, g <> f ->
               ofstreams (snd (print this message w)) !! g = ofstreams w !! g)
     end.
Proof.
  split; [apply print_returns|].
  destruct this as [path f|p].
  - destruct (filebuf_open_cases path (ofstream_at w f) w) as [Hfail|[Hc Hok]].
    + rewrite (print_file_open_fails _ _ _ _ Hfail). cbn [snd].
      split; [reflexivity|]. split; [reflexivity|]. split; [reflexivity|].
      intros g Hg. simpl.
      rewrite lookup_insert_ne by (intros Heq; apply Hg; symmetry; exact Heq).
      reflexivity.
    + rewrite (print_file_open_succeeds _ _ _ _ Hc Hok). cbn [snd].
      split; [reflexivity|]. split; [reflexivity|]. split.
      * intros q Hq. simpl.
        rewrite lookup_insert_ne by (intros Heq; apply Hq; symmetry; exact Heq).
        reflexivity.
      * intros g Hg. simpl.
        rewrite lookup_insert_ne by (intros Heq; apply Hg; symmetry; exact Heq).
        reflexivity.
  - rewrite print_console. cbn [snd].
    split; [reflexivity|]. split; [rewrite ostream_content_put; reflexivity|].
    split; [|split; reflexivity].
    intros q Hq. simpl.
    rewrite lookup_insert_ne by (intros Heq; apply Hq; symmetry; exact Heq).
    reflexivity.
Qed.

(** * Output is only ever added *)

Lemma append_nil_r (a : string) : a +:+ "" = a.
Proof.
  induction a as [|x a IH]; [reflexivity|].
  change (String x (a +:+ "") = String x a). rewrite IH. reflexivity.
Qed.

Lemma extends_refl a : extends a a.
Proof. exists "". symmetry. apply append_nil_r. Qed.

Lemma extends_append a s : extends a (a +:+ s).
Proof. exists s. reflexivity. Qed.

Lemma extends_trans a b c : extends a b -> extends b c -> extends a c.
Proof.
  intros [s ->] [t ->]. exists (s +:+ t). apply append_assoc.
Qed.

Lemma grows_refl w : grows w w.
Proof.
  split; [intros p; apply extends_refl|].
  split; [intros p; apply extends_refl|].
  split; [exists []; symmetry; apply app_nil_r|reflexivity].
Qed.

Lemma grows_trans w1 w2 w3 : grows w1 w2 -> grows w2 w3 -> grows w1 w3.
Proof.
  intros (Ho1 & Hf1 & [l1 Hl1] & Hu1) (Ho2 & Hf2 & [l2 Hl2] & Hu2).
  split; [intros p; exact (extends_trans _ _ _ (Ho1 p) (Ho2 p))|].
  split; [intros p; exact (extends_trans _ _ _ (Hf1 p) (Hf2 p))|].
  split.
  - exists (l1 ++ l2)%list. rewrite Hl2, Hl1, app_assoc. reflexivity.
  - rewrite Hu2. exact Hu1.
Qed.

Lemma grows_ostream_put p message w : grows w (ostream_put p message w).
Proof.
  split; [|split; [intros q; apply extends_refl|split;
    [exists []; symmetry; apply app_nil_r|reflexivity]]].
  intros q. destruct (decide (p = q)) as [<-|Hne].
  - rewrite ostream_content_put. apply extends_append.
  - rewrite (ostream_content_put_ne _ _ _ _ Hne). apply extends_refl.
Qed.

Lemma grows_print this message w : grows w (snd (print this message w)).
Proof.
  destruct this as [path f|p].
  - destruct (filebuf_open_cases path (ofstream_at w f) w) as [Hfail|[Hc Hok]].
    + rewrite (print_file_open_fails _ _ _ _ Hfail). cbn [snd].
      split; [intros q; apply extends_refl|].
      split; [intros q; apply extends_refl|].
      split; [eexists; reflexivity|reflexivity].
    + rewrite (print_file_open_succeeds _ _ _ _ Hc Hok). cbn [snd].
      split; [intros q; apply extends_refl|].
      split; [|split; [eexists; reflexivity|reflexivity]].
      intros q. unfold file_content at 2. simpl.
      destruct (decide (path = q)) as [<-|Hne].
      * rewrite lookup_insert_eq. apply extends_append.
      * rewrite lookup_insert_ne by exact Hne. apply extends_refl.
  - rewrite print_console. cbn [snd].
    apply (grows_trans _ (called (ConsoleLog p) message w)).
    + split; [intros q; apply extends_refl|].
      split; [intros q; apply extends_refl|].
      split; [eexists; reflexivity|reflexivity].
    + apply grows_ostream_put.
Qed.

Lemma grows_consume logmsg w : grows w (snd (consume logmsg w)).
Proof.
  destruct logmsg as [lc|lc| |].
  - rewrite consume_warning. apply grows_print.
  - rewrite consume_error. apply grows_print.
  - apply grows_refl.
  - apply grows_refl.
Qed.

Lemma grows_receiveLog h logmsg w : grows w (snd (snd (receiveLog h logmsg w))).
Proof.
  rewrite receiveLog_closed. cbn [snd].
  destruct (decide _) as [Hin|Hnin]; [apply grows_consume|apply grows_refl].
Qed.

Lemma grows_route_all h msgs w : grows w (snd (snd (route_all h msgs w))).
Proof.
  revert h w. induction msgs as [|m rest IH]; intros h w; simpl.
  - apply grows_refl.
  - pose proof (grows_receiveLog h m w) as Hm.
    destruct (receiveLog h m w) as [h' [[[]|e] w']]; cbn [snd] in *.
    + exact (grows_trans _ _ _ Hm (IH h' w')).
    + exact Hm.
Qed.

Lemma grows_driver h msgs w : grows w (snd (snd (driver h msgs w))).
Proof.
  unfold driver. pose proof (grows_route_all h msgs w) as Hr.
  destruct (route_all h msgs w) as [h' [[[]|e] w']]; cbn [snd] in *.
  - exact Hr.
  - exact (grows_trans _ _ _ Hr (grows_ostream_put _ _ _)).
Qed.

Lemma grows_ofstreams f w : grows w (set_ofstreams f w).
Proof.
  split; [intros q; apply extends_refl|].
  split; [intros q; apply extends_refl|].
  split; [exists []; symmetry; apply app_nil_r|reflexivity].
Qed.

Lemma grows_main w : grows w (snd (main w)).
Proof.
  unfold main.
  pose proof (grows_driver unknowmes_handler main_messages (main_start w)) as Hd.
  destruct (driver unknowmes_handler main_messages (main_start w))
    as [h' [code w1]]; cbn [snd] in *.
  apply (grows_trans _ (main_start w)); [apply grows_ofstreams|].
  apply (grows_trans _ w1); [exact Hd|].
  change (snd (destroy fl w1)) with (ofstream_close ofs w1).
  unfold ofstream_close. destruct (filebuf (ofstream_at w1 ofs));
    apply grows_ofstreams.
Qed.

(** Routing only adds output. After [receiveLog], after the driver has
    routed any list of messages through any chain, and after [main], every
    stream and every file holds what it held before followed by what was
    written since, the calls of [print] recorded before are still the first
    ones, and the paths that cannot be opened are the same: nothing written
    earlier is lost or changed, however the call ends. *)
Theorem routing_only_adds_output
    (h : LogHandler) (logmsg : LogMessage) (msgs : list LogMessage) (w : World) :
  grows w (snd (snd (receiveLog h logmsg w)))
  /\ grows w (snd (snd (driver h msgs w)))
  /\ grows w (snd (main w)).
Proof.
  split; [apply grows_receiveLog|]. split; [apply grows_driver|apply grows_main].
Qed.

(** * Further properties of the chain *)

Lemma accepts_class_of t :
  exists cls, accepts cls = t /\ forall cls', accepts cls' = t -> cls' = cls.
Proof.
  destruct t;
    [exists WarningLogHandler|exists ErrorLogHandler
    |exists FatalErrorLogHandler|exists UnknownMessageLogHandler];
    (split; [reflexivity|intros [] H; first [reflexivity|discriminate H]]).
Qed.

(** The four overrides of [handleLog]: a handler returns [false] exactly
    when the type of the message is not the one it is bound to, and then it
    has changed nothing; and for every message exactly one of the four
    handler classes is bound to its type. *)
Theorem handleLog_declines_iff_other_type
    (cls : HandlerClass) (logmsg : LogMessage) (w : World) :
  (fst (handleLog cls logmsg w) = Normal false <-> type logmsg <> accepts cls)
  /\ (fst (handleLog cls logmsg w) = Normal false ->
        snd (handleLog cls logmsg w) = w)
  /\ (exists cls0,
         accepts cls0 = type logmsg
         /\ forall cls', accepts cls' = type logmsg -> cls' = cls0).
Proof.
  assert (Hiff : fst (handleLog cls logmsg w) = Normal false
                 <-> type logmsg <> accepts cls).
  { split.
    - intros Hfalse Hty. rewrite (handleLog_match _ _ _ Hty) in Hfalse.
      destruct (message logmsg w) as [[t|e] w']; discriminate Hfalse.
    - intros Hty. rewrite (handleLog_decline _ _ _ Hty). reflexivity. }
  split; [exact Hiff|]. split.
  - intros Hfalse. apply Hiff in Hfalse.
    rewrite (handleLog_decline _ _ _ Hfalse). reflexivity.
  - apply accepts_class_of.
Qed.

(** The outcome of routing does not depend on the order of the links, nor
    on how many links are bound to a severity: two chains bound to the same
    severities give, for every message and world, the same result and the
    same world. *)
Theorem routing_independent_of_link_order
    (h1 h2 : LogHandler) (logmsg : LogMessage) (w : World) :
  (forall t, t ∈ severities h1 <-> t ∈ severities h2) ->
  snd (receiveLog h1 logmsg w) = snd (receiveLog h2 logmsg w).
Proof.
  intros Hsame. rewrite !receiveLog_closed. cbn [snd].
  destruct (decide (type logmsg ∈ severities h1)) as [Hin|Hnin].
  - rewrite decide_True by (apply Hsame; exact Hin). reflexivity.
  - rewrite decide_False; [reflexivity|].
    intros Hin. apply Hnin, Hsame. exact Hin.
Qed.

(** The chain of [main] and the chain with the same links in the opposite
    order, the second with one more link for warnings. *)
Lemma routing_independent_of_link_order_witness :
  snd (receiveLog unknowmes_handler (WarningLogMessage cl) (mkWorld ∅ ∅ ∅ ∅ []))
  = snd (receiveLog
           (make_handler WarningLogHandler
              (Some (make_handler ErrorLogHandler
                 (Some (make_handler FatalErrorLogHandler
                    (Some (make_handler UnknownMessageLogHandler
                       (Some (make_handler WarningLogHandler None)))))))))
           (WarningLogMessage cl) (mkWorld ∅ ∅ ∅ ∅ [])).
Proof.
  apply (routing_independent_of_link_order unknowmes_handler).
  intros t. rewrite !list_elem_of_In. destruct t; simpl; tauto.
Defined.

(** The "should be handled" error tells a gap in the chain from a failure
    of the message itself: [receiveLog] throws it exactly when no link is
    bound to the type of the message. *)
Theorem unhandled_iff_no_link
    (h : LogHandler) (logmsg : LogMessage) (w : World) :
  fst (snd (receiveLog h logmsg w)) = Raise unhandled
  <-> type logmsg ∉ severities h.
Proof.
  rewrite receiveLog_closed. cbn [snd]. split.
  - intros Hraise Hin. rewrite decide_True in Hraise by exact Hin.
    destruct logmsg as [lc|lc| |].
    + rewrite consume_warning in Hraise. discriminate Hraise.
    + rewrite consume_error in Hraise. discriminate Hraise.
    + vm_compute in Hraise. discriminate Hraise.
    + vm_compute in Hraise. discriminate Hraise.
  - intros Hnin. rewrite decide_False by exact Hnin. reflexivity.
Qed.

(** A chain with links for warnings and for errors routes any list of
    warning and error messages to the end: no call throws, the driver
    prints nothing of its own and returns 0, and the calls of [print] made
    are one per message, on the sink of the message, in the order of the
    messages. *)
Theorem writing_messages_all_routed
    (h : LogHandler) (msgs : list LogMessage) (w : World) :
  tWarning ∈ severities h ->
  tError ∈ severities h ->
  Forall (fun m => type m = tWarning \/ type m = tError) msgs ->
  fst (snd (route_all h msgs w)) = Normal tt
  /\ print_calls (snd (snd (route_all h msgs w)))
     = (print_calls w ++ flat_map written msgs)%list
  /\ driver h msgs w = (h, (0%Z, snd (snd (route_all h msgs w)))).
Proof.
  intros Hw He Hall.
  assert (Hroute : fst (snd (route_all h msgs w)) = Normal tt
            /\ print_calls (snd (snd (route_all h msgs w)))
               = (print_calls w ++ flat_map written msgs)%list).
  { revert w. induction Hall as [|m rest Hm _ IH]; intros w.
    - simpl. split; [reflexivity|]. rewrite app_nil_r. reflexivity.
    - simpl. rewrite receiveLog_closed.
      destruct m as [lc|lc| |]; simpl in Hm.
      + rewrite decide_True by exact Hw. rewrite consume_warning.
        destruct (IH (snd (print lc "warning" w))) as [Hn Hc].
        split; [exact Hn|]. rewrite Hc, print_recorded, <- app_assoc.
        reflexivity.
      + rewrite decide_True by exact He. rewrite consume_error.
        destruct (IH (snd (print lc "Error" w))) as [Hn Hc].
        split; [exact Hn|]. rewrite Hc, print_recorded, <- app_assoc.
        reflexivity.
      + destruct Hm as [Hm|Hm]; discriminate Hm.
      + destruct Hm as [Hm|Hm]; discriminate Hm. }
  destruct Hroute as [Hn Hc]. split; [exact Hn|]. split; [exact Hc|].
  unfold driver. pose proof (route_all_this h msgs w) as Hh.
  destruct (route_all h msgs w) as [h' [[[]|e] w']]; simpl in *.
  - rewrite Hh. reflexivity.
  - discriminate Hn.
Qed.

(** Three messages through the chain of [main]: three calls of [print]. *)
Lemma writing_messages_all_routed_witness :
  print_calls
    (snd (snd (route_all unknowmes_handler
                 [WarningLogMessage cl; ErrorLogMessage fl; WarningLogMessage fl]
                 (mkWorld ∅ ∅ ∅ ∅ []))))
  = ([] ++ flat_map written
             [WarningLogMessage cl; ErrorLogMessage fl; WarningLogMessage fl])%list.
Proof.
  apply (writing_messages_all_routed unknowmes_handler
           [WarningLogMessage cl; ErrorLogMessage fl; WarningLogMessage fl]
           (mkWorld ∅ ∅ ∅ ∅ [])).
  - apply main_chain_in with (logmsg := WarningLogMessage cl).
  - apply main_chain_in with (logmsg := ErrorLogMessage cl).
  - apply List.Forall_cons; [left; reflexivity|].
    apply List.Forall_cons; [right; reflexivity|].
    apply List.Forall_cons; [left; reflexivity|].
    apply List.Forall_nil.
Defined.

(** The first link bound to the type of the message is the one that
    consumes it. When some link of the chain is bound to the type,
    [receiveLog] on the chain cut anywhere before the first such link
    leaves the message unhandled and the world untouched, and
    [receiveLog] on the chain cut right after that link gives the same
    result as on the whole chain, that of the message's [message()]: what
    comes after the link, a later link bound to the same type included, is
    never reached. The number of delegations is the number of links before
    that link, each bound to another type. *)
Theorem first_bound_link_consumes
    (h : LogHandler) (logmsg : LogMessage) (w : World) :
  type logmsg ∈ severities h ->
  (exists l,
      nth_link (delegations h logmsg w) h = Some l
      /\ accepts (handler_class l) = type logmsg)
  /\ (forall j l,
         (j < delegations h logmsg w)%nat ->
         nth_link j h = Some l ->
         accepts (handler_class l) <> type logmsg)
  /\ snd (receiveLog h logmsg w) = consume logmsg w
  /\ (forall j,
         (j < delegations h logmsg w)%nat ->
         receiveLog (cut j h) logmsg w = (cut j h, (Raise unhandled, w)))
  /\ snd (receiveLog (cut (delegations h logmsg w) h) logmsg w)
     = snd (receiveLog h logmsg w).
Proof.
  intros Hin. split; [|split; [|split; [|split]]].
  - destruct (delegations_stop h logmsg w) as (l & Hl & Hm & _).
    exists l. split; [exact Hl|]. symmetry. apply Hm, Hin.
  - intros j l Hj Hl Heq.
    apply (delegations_before h logmsg w j l Hj Hl). symmetry. exact Heq.
  - rewrite receiveLog_closed. cbn [snd].
    rewrite decide_True by exact Hin. reflexivity.
  - intros j Hj. apply receiveLog_cut_before, Hj.
  - rewrite (receiveLog_cut_at _ _ _ Hin), receiveLog_closed. cbn [snd].
    rewrite decide_True by exact Hin. reflexivity.
Qed.

(** A chain with two links for warnings, the first after a link for
    errors: a warning stops at the second link of the chain, and the
    first link alone leaves it unhandled. *)
Lemma first_bound_link_consumes_witness :
  (exists l,
      nth_link
        (delegations
           (make_handler ErrorLogHandler
              (Some (make_handler WarningLogHandler (Some warn_handler))))
           (WarningLogMessage cl) (mkWorld ∅ ∅ ∅ ∅ []))
        (make_handler ErrorLogHandler
           (Some (make_handler WarningLogHandler (Some warn_handler))))
      = Some l
      /\ accepts (handler_class l) = type (WarningLogMessage cl))
  /\ delegations
       (make_handler ErrorLogHandler
          (Some (make_handler WarningLogHandler (Some warn_handler))))
       (WarningLogMessage cl) (mkWorld ∅ ∅ ∅ ∅ [])
     = 1%nat
  /\ receiveLog (make_handler ErrorLogHandler None)
       (WarningLogMessage cl) (mkWorld ∅ ∅ ∅ ∅ [])
     = (make_handler ErrorLogHandler None,
        (Raise unhandled, mkWorld ∅ ∅ ∅ ∅ [])).
Proof.
  assert (Hin : type (WarningLogMessage cl)
                ∈ severities
                    (make_handler ErrorLogHandler
                       (Some (make_handler WarningLogHandler
                                (Some warn_handler))))).
  { apply list_elem_of_In. simpl. tauto. }
  pose proof (first_bound_link_consumes
                (make_handler ErrorLogHandler
                   (Some (make_handler WarningLogHandler (Some warn_handler))))
                (WarningLogMessage cl) (mkWorld ∅ ∅ ∅ ∅ []) Hin)
    as (Hl & _ & _ & Hcut & _).
  split; [exact Hl|]. split; [vm_compute; reflexivity|].
  apply (Hcut 0%nat). vm_compute. lia.
Defined.

(** * Further properties of [main] *)

Lemma ofstream_close_closed f w :
  filebuf (ofstream_at (ofstream_close f w) f) = None.
Proof.
  unfold ofstream_close.
  destruct (filebuf (ofstream_at w f)); unfold ofstream_at; simpl;
    rewrite lookup_insert_eq; reflexivity.
Qed.

Lemma main_file_content w :
  file_content (snd (main w)) "file_path"
  = if decide ("file_path" ∈ unwritable w)
    then file_content w "file_path"
    else file_content w "file_path" +:+ "Error" +:+ endl.
Proof.
  rewrite main_closed. cbn [snd].
  set (w2 := snd (print fl "Error" (snd (print cl "warning" (main_start w))))).
  unfold file_content at 1.
  rewrite (proj1 (proj2 (ofstream_close_frame _ _))). simpl.
  unfold w2. rewrite main_file_written.
  destruct (decide ("file_path" ∈ unwritable w)); [reflexivity|].
  rewrite lookup_insert_eq. reflexivity.
Qed.

Lemma main_cout_content w :
  ostream_content (snd (main w)) cout
  = ostream_content w cout
    +:+ "warning" +:+ endl +:+ "UnknownMessage!" +:+ endl.
Proof.
  rewrite main_closed. cbn [snd].
  set (w1 := snd (print cl "warning" (main_start w))).
  set (w2 := snd (print fl "Error" w1)).
  unfold ostream_content at 1.
  rewrite (proj1 (ofstream_close_frame _ _)).
  fold (ostream_content (ostream_put cout "UnknownMessage!" w2) cout).
  rewrite ostream_content_put.
  unfold ostream_content at 1. unfold w2, fl.
  rewrite print_file_ostreams.
  fold (ostream_content w1 cout).
  unfold w1, cl. rewrite print_console. cbn [snd].
  rewrite ostream_content_put, append_assoc. reflexivity.
Qed.

Lemma main_unwritable w : unwritable (snd (main w)) = unwritable w.
Proof. apply (grows_main w). Qed.

(** Running the program again: [main] leaves the stream [ofs] closed, and
    a second run adds to what the first one left. After two runs the file
    "file_path" has its earlier contents followed by two lines "Error"
    (it is opened for appending, never truncated), unless the path cannot
    be opened, and then it is untouched; the standard output has the lines
    "warning" and "UnknownMessage!" twice. *)
Theorem main_run_twice (w : World) :
  filebuf (ofstream_at (snd (main w)) ofs) = None
  /\ file_content (snd (main (snd (main w)))) "file_path"
     = (if decide ("file_path" ∈ unwritable w)
        then file_content w "file_path"
        else file_content w "file_path"
             +:+ "Error" +:+ endl +:+ "Error" +:+ endl)
  /\ ostream_content (snd (main (snd (main w)))) cout
     = ostream_content w cout
       +:+ "warning" +:+ endl +:+ "UnknownMessage!" +:+ endl
       +:+ "warning" +:+ endl +:+ "UnknownMessage!" +:+ endl.
Proof.
  split; [|split].
  - rewrite main_closed. cbn [snd]. apply ofstream_close_closed.
  - rewrite main_file_content, main_unwritable, main_file_content.
    destruct (decide ("file_path" ∈ unwritable w)); [reflexivity|].
    rewrite append_assoc. reflexivity.
  - rewrite main_cout_content, main_cout_content.
    rewrite append_assoc. reflexivity.
Qed.
